(** * calciumImgTAU: the numeric pipeline, embedded and verified

    Shallow embedding of [pipeline/normalizer.py], [pipeline/baseline.py],
    [pipeline/filters.py], [pipeline/detrend.py], [pipeline/loader.py] and of
    the two entry points that chain them, [run_pipeline.py] and the endpoint
    [/process/roi] of [api.py].

    - A cell of a table is an IEEE-754 binary64 value ([spec_float] with
      [prec = 53], [emax = 1024]): Python floats, with NaN (pandas' missing
      value), the two infinities, signed zeros, rounding and overflow.
    - A [DataFrame] is stored by column, as pandas does: row labels, column
      labels, and one list of cells per column.
    - A Python exception is the [Raise] case of [result].
    - Numeric routines of SciPy, NumPy and pandas whose arithmetic is not in
      the repository ([savgol_filter], [gaussian_filter1d], [np.exp],
      [np.linalg.lstsq], quantile interpolation, the rolling mean) are the
      fields of the classes [Stats], [Smoothers] and [LinAlg]: every
      statement holds for all of their instances.
    - Reading a file, writing the workbook and drawing the plots are left
      out: the entry points start from the table that was read and end with
      the tables they computed. *)

From Stdlib Require Import ZArith String Ascii List Bool Lia.
From Stdlib Require Import SpecFloat DecimalString DecimalPos DecimalZ.
From stdpp Require Import base tactics option list strings.

Open Scope string_scope.
Open Scope Z_scope.

(** ** Python exceptions *)

Inductive exn :=
  | ValueError (msg : string)
  | ImportError (msg : string)
  | IndexError (msg : string)
  | OverflowError (msg : string)
  | TypeError (msg : string).

Inductive result (A : Type) :=
  | Ok (a : A)
  | Raise (e : exn).
Arguments Ok {A} a.
Arguments Raise {A} e.

Definition rbind {A B} (m : result A) (k : A → result B) : result B :=
  match m with
  | Ok a => k a
  | Raise e => Raise e
  end.

Notation "x ←r m ; k" := (rbind m (λ x, k))
  (at level 20, m at level 100, k at level 200, only parsing).
Notation "m ;;r k" := (rbind m (λ _, k))
  (at level 100, k at level 200, right associativity, only parsing).

Fixpoint rmapM {A B} (f : A → result B) (l : list A) : result (list B) :=
  match l with
  | [] => Ok []
  | x :: l' => y ←r f x; ys ←r rmapM f l'; Ok (y :: ys)
  end.

(** [str(n)] for an integer. *)
Definition str_Z (n : Z) : string := NilZero.string_of_int (Z.to_int n).

(** ** binary64 *)

Module F64.

Definition float := spec_float.
Definition prec : Z := 53.
Definition emax : Z := 1024.

Definition add : float → float → float := SFadd prec emax.
Definition sub : float → float → float := SFsub prec emax.
Definition mul : float → float → float := SFmul prec emax.
Definition div : float → float → float := SFdiv prec emax.
Definition abs : float → float := SFabs.
Definition opp : float → float := SFopp.

(** [leb x y] is Python's [x <= y]: false as soon as one side is NaN. *)
Definition leb : float → float → bool := SFleb.
Definition ltb : float → float → bool := SFltb.
(** [geb x y] is [x >= y]. *)
Definition geb (x y : float) : bool := SFleb y x.

Definition nan : float := S754_nan.
Definition zero : float := S754_zero false.
Definition pinf : float := S754_infinity false.
Definition ninf : float := S754_infinity true.

(** [float(n)] for an integer [n], and the literal [m * 2^e], both rounded
    to nearest even. *)
Definition of_Z (n : Z) : float := binary_normalize prec emax n 0 false.
Definition of_dyadic (m e : Z) : float := binary_normalize prec emax m e false.

Definition isnan (x : float) : bool :=
  match x with S754_nan => true | _ => false end.
Definition isinf (x : float) : bool :=
  match x with S754_infinity _ => true | _ => false end.
(** [math.isfinite] *)
Definition isfinite (x : float) : bool :=
  match x with S754_zero _ | S754_finite _ _ _ => true | _ => false end.

Definition eq_dec : ∀ x y : float, {x = y} + {x ≠ y}.
Proof.
  decide equality;
    solve [apply Z.eq_dec | apply Pos.eq_dec | apply Bool.bool_dec].
Defined.

(** The literals of the source. [1e-12] is the binary64 number nearest to
    10^-12, 0x3D719799812DEA11. *)
Definition lit_1e_12 : float := S754_finite false 4951760157141521 (-92).
Definition lit_100 : float := Eval vm_compute in of_Z 100.
Definition lit_2 : float := Eval vm_compute in of_Z 2.
Definition lit_3 : float := Eval vm_compute in of_Z 3.
Definition lit_neg_half : float := Eval vm_compute in of_dyadic (-1) (-1).

End F64.

Abbreviation float := F64.float.

#[global] Instance float_eq_dec : EqDecision float := F64.eq_dec.

(** ** Labels, sorting, and pandas' outer join of two label lists *)

Fixpoint insert_sorted {A} (le : A → A → bool) (x : A) (l : list A) : list A :=
  match l with
  | [] => [x]
  | y :: l' => if le x y then x :: l else y :: insert_sorted le x l'
  end.

Definition isort {A} (le : A → A → bool) (l : list A) : list A :=
  foldr (insert_sorted le) [] l.

(** [Index.get_loc]: the position of a label. *)
Fixpoint get_loc `{EqDecision A} (x : A) (l : list A) : option nat :=
  match l with
  | [] => None
  | y :: l' => if decide (x = y) then Some 0%nat else S <$> get_loc x l'
  end.

(** [Index.join(other, how="outer")] on unique labels: an axis that equals
    the other one (or faces an empty one) is kept as it is; otherwise the
    result is the sorted union. *)
Definition join_outer `{EqDecision A} (le : A → A → bool) (l r : list A) : list A :=
  if decide (l = r) then l
  else match l, r with
       | _, [] => l
       | [], _ => r
       | _, _ => isort le (l ++ filter (λ x, x ∉ l) r)
       end.

(** ** Series and DataFrame *)

Record Series := mkSeries {
  s_index : list string;
  s_values : list float
}.

(** [df_data] holds the cells by column: [df_data !! j !! i] is row [i] of
    column [j]. *)
Record DataFrame := mkDataFrame {
  df_index : list Z;
  df_columns : list string;
  df_data : list (list float)
}.

(** [len(df)] *)
Definition len (df : DataFrame) : nat := length (df_index df).

Definition cell (df : DataFrame) (i j : nat) : option float :=
  df_data df !! j ≫= λ col, col !! i.

(** [df[c]] as a list of cells, and [s[c]]. *)
Definition column (df : DataFrame) (c : string) : option (list float) :=
  get_loc c (df_columns df) ≫= λ j, df_data df !! j.

Definition series_get (s : Series) (c : string) : option float :=
  get_loc c (s_index s) ≫= λ j, s_values s !! j.

(** [df.at[r, c]] *)
Definition at_ (df : DataFrame) (r : Z) (c : string) : option float :=
  col ← column df c; i ← get_loc r (df_index df); col !! i.

(** The table is rectangular and its labels are unique. *)
Definition wf_df (df : DataFrame) : Prop :=
  length (df_data df) = length (df_columns df)
  ∧ Forall (λ col, length col = len df) (df_data df)
  ∧ NoDup (df_columns df)
  ∧ NoDup (df_index df).

(** [df.empty] *)
Definition empty (df : DataFrame) : bool :=
  bool_decide (df_index df = []) || bool_decide (df_columns df = []).

Definition df_map (f : float → float) (df : DataFrame) : DataFrame :=
  mkDataFrame (df_index df) (df_columns df) (map (map f) (df_data df)).

Definition series_map (f : float → float) (s : Series) : Series :=
  mkSeries (s_index s) (map f (s_values s)).

(** ** Arithmetic with alignment

    The right operand of [df - baseline] is a table, a per-channel vector or
    a scalar. *)

Inductive BaseLike :=
  | BaseFrame (b : DataFrame)
  | BaseSeries (s : Series)
  | BaseScalar (x : float).

(** [col.reindex(new_index)]: the cells of [col] at the rows named by
    [new_index], NaN where the label is absent. *)
Definition reindex_rows (old_index new_index : list Z) (col : list float) : list float :=
  map (λ r, default F64.nan (get_loc r old_index ≫= λ i, col !! i)) new_index.

Definition column_or_nan (df : DataFrame) (c : string) : list float :=
  default (replicate (len df) F64.nan) (column df c).

(** [df op other]. A scalar is broadcast over every cell. A Series is aligned
    with the columns by name (outer join) and broadcast over the rows. A
    DataFrame is aligned on both axes. A label present on one side only gets
    NaN as the missing operand. *)
Definition df_binop (op : float → float → float) (df : DataFrame) (other : BaseLike) : DataFrame :=
  match other with
  | BaseScalar x =>
      mkDataFrame (df_index df) (df_columns df) (map (map (λ v, op v x)) (df_data df))
  | BaseSeries s =>
      let cols := join_outer String.leb (df_columns df) (s_index s) in
      mkDataFrame (df_index df) cols
        (map (λ c, map (λ v, op v (default F64.nan (series_get s c)))
                       (column_or_nan df c)) cols)
  | BaseFrame b =>
      let cols := join_outer String.leb (df_columns df) (df_columns b) in
      let rows := join_outer Z.leb (df_index df) (df_index b) in
      mkDataFrame rows cols
        (map (λ c, zip_with op
                     (reindex_rows (df_index df) rows (column_or_nan df c))
                     (reindex_rows (df_index b) rows (column_or_nan b c))) cols)
  end.

(** ** [pipeline/normalizer.py] *)

Module Normalizer.

(** [df.dtypes.values[0]] raises [IndexError] on a table without columns;
    cells are floats already, so nothing is converted. *)
Definition _to_float_df (df : DataFrame) : result DataFrame :=
  match df_columns df with
  | [] => Raise (IndexError "index 0 is out of bounds for axis 0 with size 0")
  | _ => Ok df
  end.

(** [b if abs(b) >= eps else eps], which is also what
    [baseline.where(baseline.abs() >= eps, eps)] does to each entry. *)
Definition safe_entry (eps b : float) : float :=
  if F64.geb (F64.abs b) eps then b else eps.

Definition _safe_baseline (baseline : BaseLike) (eps : float) : BaseLike :=
  match baseline with
  | BaseFrame b => BaseFrame (df_map (safe_entry eps) b)
  | BaseSeries s => BaseSeries (series_map (safe_entry eps) s)
  | BaseScalar b => BaseScalar (safe_entry eps b)
  end.

Definition subtract (df : DataFrame) (baseline : BaseLike) : result DataFrame :=
  df ←r _to_float_df df;
  Ok (df_binop F64.sub df baseline).

(** [out.replace([np.inf, -np.inf], np.nan)] on one cell. *)
Definition replace_inf (x : float) : float :=
  if F64.isinf x then F64.nan else x.

(** [out.fillna(v)] on one cell. *)
Definition fillna (v x : float) : float :=
  if F64.isnan x then v else x.

(** [out.clip(lower=lo)] on one cell: a missing cell stays missing. *)
Definition clip_lower (lo x : float) : float :=
  if F64.isnan x || F64.geb x lo then x else lo.

Definition eps_default : float := F64.lit_1e_12.
Definition fillna_default : option float := Some F64.zero.

Definition deltaF_over_F (df : DataFrame) (baseline : BaseLike) (eps : float)
    (as_percent clip_negatives : bool) (fillna_value : option float) : result DataFrame :=
  df ←r _to_float_df df;
  let safe_base := _safe_baseline baseline eps in
  let out := df_binop F64.div (df_binop F64.sub df safe_base) safe_base in
  let out := if as_percent then df_binop F64.mul out (BaseScalar F64.lit_100) else out in
  let out := df_map replace_inf out in
  let out := match fillna_value with
             | Some v => df_map (fillna v) out
             | None => out
             end in
  let out := if clip_negatives then df_map (clip_lower F64.zero) out else out in
  Ok out.

End Normalizer.

(** ** Column statistics and fills of pandas *)

Definition dropna (col : list float) : list float :=
  filter (λ x, F64.isnan x = false) col.

(** [Series.median()]: missing cells are skipped; the middle of the sorted
    values, or the mean of the two middle ones; NaN when nothing is left. *)
Definition median (col : list float) : float :=
  let v := isort F64.leb (dropna col) in
  let n := length v in
  match n with
  | O => F64.nan
  | _ =>
      if Nat.odd n then default F64.nan (v !! (n / 2)%nat)
      else F64.div (F64.add (default F64.nan (v !! (n / 2 - 1)%nat))
                            (default F64.nan (v !! (n / 2)%nat))) F64.lit_2
  end.

(** [Series.bfill()]: a missing cell takes the next valid value below it. *)
Fixpoint bfill (col : list float) : list float :=
  match col with
  | [] => []
  | x :: l =>
      let l' := bfill l in
      (if F64.isnan x then default F64.nan (head l') else x) :: l'
  end.

(** [Series.ffill()]: a missing cell takes the last valid value above it. *)
Fixpoint ffill_from (last : float) (col : list float) : list float :=
  match col with
  | [] => []
  | x :: l =>
      let y := if F64.isnan x then last else x in
      y :: ffill_from y l
  end.

Definition ffill (col : list float) : list float := ffill_from F64.nan col.

(** Python's [l[start:stop]] with its clamping and its negative indices. *)
Definition slice_bound (n k : Z) : nat :=
  Z.to_nat (if k <? 0 then Z.max 0 (k + n) else Z.min k n).

Definition slice {A} (start stop : Z) (l : list A) : list A :=
  let n := Z.of_nat (length l) in
  let a := slice_bound n start in
  let b := slice_bound n stop in
  take (b - a) (drop a l).

(** [df.iloc[start:stop]] *)
Definition iloc_rows (start stop : Z) (df : DataFrame) : DataFrame :=
  mkDataFrame (slice start stop (df_index df)) (df_columns df)
    (map (slice start stop) (df_data df)).

(** [df.median(axis=0)]: one value per column, indexed by the column names. *)
Definition df_median (df : DataFrame) : Series :=
  mkSeries (df_columns df) (map median (df_data df)).

(** [pd.DataFrame(values, index=..., columns=...)]: the constructor refuses
    values whose shape is not (rows, columns). *)
Definition pd_DataFrame (data : list (list float)) (index : list Z)
    (columns : list string) : result DataFrame :=
  if decide (length data = length columns
             ∧ Forall (λ col, length col = length index) data)
  then Ok (mkDataFrame index columns data)
  else Raise (ValueError "Shape of passed values does not match the index and the columns").

(** [np.tile(v, (n, 1))], by column: column [j] repeats [v[j]] on [n] rows. *)
Definition np_tile (v : list float) (n : nat) : list (list float) :=
  map (replicate n) v.

(** [int(np.ceil(x))] *)
Definition ceil_int (x : float) : result Z :=
  match x with
  | S754_nan => Raise (ValueError "cannot convert float NaN to integer")
  | S754_infinity _ => Raise (OverflowError "cannot convert float infinity to integer")
  | S754_zero _ => Ok 0
  | S754_finite s m e =>
      let sm := if s then Z.neg m else Z.pos m in
      Ok (if 0 <=? e then sm * 2 ^ e else - ((- sm) / 2 ^ (- e)))
  end.

(** The numeric kernels of pandas and NumPy that the baseline strategies
    call and whose arithmetic is not in the repository. *)
Class Stats := {
  (** [Series.quantile(p)], linear interpolation, missing cells skipped *)
  pd_quantile : list float → float → float;
  (** [np.nanquantile(a, p)]; raises outside [0, 1] *)
  np_nanquantile : list float → float → result float;
  (** the mean of the valid observations of one rolling window *)
  pd_rolling_mean : list float → float
}.

(** ** Centered rolling windows *)

(** The rows [start, end) that the window of row [i] covers
    ([FixedWindowIndexer] with [center=True]), clipped to the table. *)
Definition window_bounds (n window i : Z) : Z * Z :=
  let offset := (window - 1) / 2 in
  let end_ := i + 1 + offset in
  let start := end_ - window in
  (Z.max 0 (Z.min start n), Z.max 0 (Z.min end_ n)).

Definition window_of (window : Z) (col : list float) (i : nat) : list float :=
  let n := Z.of_nat (length col) in
  let '(a, b) := window_bounds n window (Z.of_nat i) in
  take (Z.to_nat b - Z.to_nat a) (drop (Z.to_nat a) col).

(** [col.rolling(window, center=True, min_periods=minp).agg(stat)]: the
    statistic where the window holds at least [minp] valid cells, NaN
    elsewhere. *)
Definition rolling_col (stat : list float → result float) (window minp : Z)
    (col : list float) : result (list float) :=
  rmapM (λ i, let w := window_of window col i in
              if minp <=? Z.of_nat (length (dropna w)) then stat w
              else Ok F64.nan)
        (seq 0 (length col)).

(** [df.rolling(window=window, center=True, min_periods=minp)] followed by a
    statistic; pandas refuses [min_periods > window]. *)
Definition rolling (stat : list float → result float) (window minp : Z)
    (df : DataFrame) : result DataFrame :=
  if window <? minp
  then Raise (ValueError ("min_periods " ++ str_Z minp ++ " must be <= window " ++ str_Z window))
  else
    cols ←r rmapM (rolling_col stat window minp) (df_data df);
    Ok (mkDataFrame (df_index df) (df_columns df) cols).

(** ** [pipeline/baseline.py] *)

Module BaselineComputer.

Record t := mk {
  mode : string;
  stim_frame : option Z;
  pre_window : Z;
  rolling_window : Z;
  global_percentile_q : float;
  rolling_percentile_q : float;
  roll_min_frac : float
}.

Definition _validate_positive (n : Z) (name : string) : result unit :=
  if n <? 3 then Raise (ValueError (name ++ " must be >= 3")) else Ok tt.

Definition _validate_stim_and_window (self : t) (n_rows : Z) : result unit :=
  match stim_frame self with
  | None =>
      Raise (ValueError "STIM_FRAME is None; pre-stim baseline requires a stimulus frame.")
  | Some stim =>
      if (stim <=? 0) || (n_rows <? stim)
      then Raise (ValueError ("STIM_FRAME=" ++ str_Z stim ++ " out of range [1.."
                              ++ str_Z n_rows ++ "] after trimming"))
      else _validate_positive (pre_window self) "BASELINE_PRE_WINDOW"
  end.

(** [pd.DataFrame(np.tile(f0.values, (len(df), 1)), index=df.index,
    columns=df.columns)] *)
Definition broadcast (f0 : Series) (df : DataFrame) : result DataFrame :=
  pd_DataFrame (np_tile (s_values f0) (len df)) (df_index df) (df_columns df).

Definition baseline_pre_stim_median (self : t) (df : DataFrame)
    : result (DataFrame * Series) :=
  let n := Z.of_nat (len df) in
  _validate_stim_and_window self n ;;r
  match stim_frame self with
  | None => Raise (TypeError "unsupported operand type(s) for -: 'NoneType' and 'int'")
  | Some stim =>
      let start := Z.max 0 (stim - pre_window self) in
      let prestim := iloc_rows start stim df in
      let f0 := df_median prestim in
      F0_df ←r broadcast f0 df;
      Ok (F0_df, f0)
  end.

Definition baseline_global_median (self : t) (df : DataFrame)
    : result (DataFrame * Series) :=
  let f0 := df_median df in
  F0_df ←r broadcast f0 df;
  Ok (F0_df, f0).

Section with_stats.
Context `{Stats}.

Definition baseline_global_percentile (self : t) (df : DataFrame)
    : result (DataFrame * Series) :=
  let q := global_percentile_q self in
  if negb (F64.leb F64.zero q && F64.leb q F64.lit_100)
  then Raise (ValueError "GLOBAL_PERCENTILE_Q must be in [0,100]")
  else
    let p := F64.div q F64.lit_100 in
    let f0 := mkSeries (df_columns df) (map (λ col, pd_quantile col p) (df_data df)) in
    F0_df ←r broadcast f0 df;
    Ok (F0_df, f0).

(** [max(3, int(np.ceil(window * self.roll_min_frac)))] *)
Definition min_periods (self : t) (window : Z) : result Z :=
  c ←r ceil_int (F64.mul (F64.of_Z window) (roll_min_frac self));
  Ok (Z.max 3 c).

Definition fill_edges (df : DataFrame) : DataFrame :=
  mkDataFrame (df_index df) (df_columns df) (map (λ col, ffill (bfill col)) (df_data df)).

Definition _rolling_apply_quantile (self : t) (df : DataFrame) (window : Z) (q : float)
    : result DataFrame :=
  _validate_positive window "ROLLING_WINDOW" ;;r
  minp ←r min_periods self window;
  let _q := λ s, np_nanquantile s (F64.div q F64.lit_100) in
  base ←r rolling _q window minp df;
  Ok (fill_edges base).

Definition baseline_rolling_median (self : t) (df : DataFrame)
    : result (DataFrame * Series) :=
  _validate_positive (rolling_window self) "ROLLING_WINDOW" ;;r
  minp ←r min_periods self (rolling_window self);
  base ←r rolling (λ w, Ok (median w)) (rolling_window self) minp df;
  let base := fill_edges base in
  let f0_repr := df_median base in
  Ok (base, f0_repr).

Definition baseline_rolling_percentile (self : t) (df : DataFrame)
    : result (DataFrame * Series) :=
  base ←r _rolling_apply_quantile self df (rolling_window self) (rolling_percentile_q self);
  let f0_repr := df_median base in
  Ok (base, f0_repr).

Definition baseline_rolling_mean (self : t) (df : DataFrame)
    : result (DataFrame * Series) :=
  _validate_positive (rolling_window self) "ROLLING_WINDOW" ;;r
  minp ←r min_periods self (rolling_window self);
  base ←r rolling (λ w, Ok (pd_rolling_mean (dropna w))) (rolling_window self) minp df;
  let base := fill_edges base in
  let f0_repr := df_median base in
  Ok (base, f0_repr).

Definition compute (self : t) (df : DataFrame) : result (DataFrame * Series) :=
  let mode := mode self in
  if decide (mode = "pre_stim_median") then baseline_pre_stim_median self df
  else if decide (mode = "global_median") then baseline_global_median self df
  else if decide (mode = "global_percentile") then baseline_global_percentile self df
  else if decide (mode = "rolling_median") then baseline_rolling_median self df
  else if decide (mode = "rolling_percentile") then baseline_rolling_percentile self df
  else if decide (mode = "rolling_mean") then baseline_rolling_mean self df
  else Raise (ValueError ("Unknown baseline mode: " ++ mode)).

End with_stats.

End BaselineComputer.

(** ** NumPy pieces of the Gaussian fallback *)

(** Python's [round(x)] to an integer: half to even. *)
Definition py_round (x : float) : result Z :=
  match x with
  | S754_nan => Raise (ValueError "cannot convert float NaN to integer")
  | S754_infinity _ => Raise (OverflowError "cannot convert float infinity to integer")
  | S754_zero _ => Ok 0
  | S754_finite s m e =>
      let r :=
        if 0 <=? e then Z.pos m * 2 ^ e
        else
          let d := 2 ^ (- e) in
          let q := Z.pos m / d in
          let rem := Z.pos m mod d in
          match 2 * rem ?= d with
          | Lt => q
          | Gt => q + 1
          | Eq => if Z.even q then q else q + 1
          end in
      Ok (if s then - r else r)
  end.

(** [np.arange(lo, hi, dtype=float)] *)
Definition arange (lo hi : Z) : list float :=
  map (λ k, F64.of_Z (lo + Z.of_nat k)) (seq 0 (Z.to_nat (hi - lo))).

(** [a.sum()] and the dot product, accumulated from left to right. *)
Definition fsum (l : list float) : float := foldl F64.add F64.zero l.

Definition dot (a b : list float) : float := fsum (zip_with F64.mul a b).

Inductive pad_mode := PadEdge | PadReflect | PadWrap.

(** The source position that position [p] of the extended signal reads, for a
    signal of [n > 0] samples ([p] runs from [-radius] to [n + radius - 1]). *)
Definition pad_source (mode : pad_mode) (n p : Z) : Z :=
  match mode with
  | PadEdge => Z.max 0 (Z.min p (n - 1))
  | PadReflect =>
      if n =? 1 then 0
      else let m := 2 * (n - 1) in
           let q := p mod m in
           if q <? n then q else m - q
  | PadWrap => p mod n
  end.

(** [np.pad(a, (radius, radius), mode=...)]; an empty axis cannot be
    extended. *)
Definition np_pad (a : list float) (radius : Z) (mode : pad_mode) : result (list float) :=
  match a with
  | [] => Raise (ValueError "can't extend empty axis 0 using modes other than 'constant' or 'empty'")
  | _ =>
      let n := Z.of_nat (length a) in
      Ok (map (λ k, default F64.nan
                      (a !! Z.to_nat (pad_source mode n (Z.of_nat k - radius))))
              (seq 0 (Z.to_nat (n + 2 * radius))))
  end.

(** [np.convolve(a, v, mode="valid")] for [len(a) >= len(v)]: the kernel is
    flipped and slid over [a]. *)
Definition np_convolve_valid (a v : list float) : list float :=
  let k := length v in
  map (λ i, dot (take k (drop i a)) (rev v)) (seq 0 (length a + 1 - k)).

(** ASCII [str.lower()]. *)
Definition ascii_lower (c : ascii) : ascii :=
  let n := nat_of_ascii c in
  if (65 <=? n)%nat && (n <=? 90)%nat then ascii_of_nat (n + 32) else c.

Fixpoint lower (s : string) : string :=
  match s with
  | EmptyString => EmptyString
  | String c s' => String (ascii_lower c) (lower s')
  end.

(** The optional SciPy routines, and [np.exp]. Arrays are passed by column;
    [HAVE_SCIPY_SG] and [HAVE_SCIPY_GAUSS] tell whether the imports
    succeeded. *)
Class Smoothers := {
  HAVE_SCIPY_SG : bool;
  (** [savgol_filter(arr, window_length=, polyorder=, axis=0)] *)
  savgol_filter : list (list float) → Z → Z → result (list (list float));
  HAVE_SCIPY_GAUSS : bool;
  (** [gaussian_filter1d(arr, sigma=, axis=0, mode=)] *)
  gaussian_filter1d : list (list float) → float → string → result (list (list float));
  np_exp : float → float
}.

(** ** [pipeline/filters.py] *)

(** [win = int(self.savgol_window) | 1], [max_odd], then
    [win = max(3, min(win, max_odd))]; Python's [|] on integers is
    two's-complement, as [Z.lor]. *)
Definition savgol_effective_window (n savgol_window : Z) : Z :=
  let win := Z.lor savgol_window 1 in
  let max_odd := if n mod 2 =? 1 then n else n - 1 in
  Z.max 3 (Z.min win max_odd).

Module FilterApplier.

Record t := mk {
  method : string;
  gaussian_sigma : float;
  gauss_boundary : string;
  savgol_window : Z;
  savgol_poly : Z
}.

(** [__init__]: [(method or "savgol").lower()] *)
Definition init (method : option string) (gaussian_sigma : float)
    (gauss_boundary : string) (savgol_window savgol_poly : Z) : t :=
  let m := match method with
           | None | Some "" => "savgol"
           | Some m => m
           end in
  mk (lower m) gaussian_sigma gauss_boundary savgol_window savgol_poly.

(** [_to_float_df]: the cells are floats already. *)
Definition _to_float_df (df : DataFrame) : DataFrame := df.

(** [df.isna()], by column. *)
Definition isna (df : DataFrame) : list (list bool) :=
  map (map F64.isnan) (df_data df).

(** [filtered.where(~nan_mask, np.nan)] *)
Definition _restore_nans (filtered : DataFrame) (nan_mask : list (list bool)) : DataFrame :=
  mkDataFrame (df_index filtered) (df_columns filtered)
    (zip_with (zip_with (λ x (m : bool), if m then F64.nan else x))
              (df_data filtered) nan_mask).

(** The temporary fill of [apply]: a column that is not entirely missing is
    filled backward then forward. *)
Definition fill_column (col : list float) : list float :=
  if forallb F64.isnan col then col else ffill (bfill col).

Section with_smoothers.
Context `{Smoothers}.

Definition _gaussian_ndimage (self : t) (df : DataFrame) : result DataFrame :=
  let mode := gauss_boundary self in
  let arr := df_data df in
  out ←r gaussian_filter1d arr (gaussian_sigma self) mode;
  pd_DataFrame out (df_index df) (df_columns df).

(** The kernel of [_gaussian_numpy]: [exp(-0.5 * (kx / sigma) ** 2)] over
    [-radius .. radius], divided by its sum. *)
Definition gaussian_kernel (sigma : float) (radius : Z) : list float :=
  let kx := arange (- radius) (radius + 1) in
  let kernel := map (λ k, let u := F64.div k sigma in
                          np_exp (F64.mul F64.lit_neg_half (F64.mul u u))) kx in
  let total := fsum kernel in
  map (λ w, F64.div w total) kernel.

Definition _gaussian_numpy (self : t) (df : DataFrame) : result DataFrame :=
  let sigma := gaussian_sigma self in
  if F64.leb sigma F64.zero then Ok df
  else
    r ←r py_round (F64.mul F64.lit_3 sigma);
    let radius := Z.max 1 r in
    let kernel := gaussian_kernel sigma radius in
    let mode := gauss_boundary self in
    let pad_mode :=
      if decide (mode = "nearest") then PadEdge
      else if decide (mode = "reflect" ∨ mode = "mirror") then PadReflect
      else PadWrap in
    cols ←r rmapM (λ a, a_pad ←r np_pad a radius pad_mode;
                        Ok (np_convolve_valid a_pad kernel)) (df_data df);
    pd_DataFrame cols (df_index df) (df_columns df).

Definition _apply_gaussian (self : t) (df : DataFrame) : result DataFrame :=
  if F64.leb (gaussian_sigma self) F64.zero then Ok df
  else if HAVE_SCIPY_GAUSS then _gaussian_ndimage self df
  else _gaussian_numpy self df.

Definition _apply_savgol (self : t) (df : DataFrame) : result DataFrame :=
  if negb HAVE_SCIPY_SG
  then Raise (ImportError "Savitzky–Golay filter requires SciPy. Please install scipy.")
  else
    let n := Z.of_nat (len df) in
    if n <? 3 then Ok df
    else
      let win := savgol_effective_window n (savgol_window self) in
      if win <=? savgol_poly self
      then Raise (ValueError "SAVGOL_POLY must be < SAVGOL_WINDOW")
      else if win <? savgol_poly self + 2
      then Raise (ValueError "SAVGOL_WINDOW must be at least POLYORDER + 2")
      else
        arr_out ←r savgol_filter (df_data df) win (savgol_poly self);
        pd_DataFrame arr_out (df_index df) (df_columns df).

(** [df_filled]: the copy of the table with every column filled. *)
Definition fill_missing (df : DataFrame) : DataFrame :=
  mkDataFrame (df_index df) (df_columns df) (map fill_column (df_data df)).

Definition apply (self : t) (df : DataFrame) : result DataFrame :=
  if empty df then Ok df
  else
    let df := _to_float_df df in
    let nan_mask := isna df in
    let df_filled := fill_missing df in
    filtered ←r
      (if decide (method self = "gaussian") then _apply_gaussian self df_filled
       else if decide (method self = "savgol") then _apply_savgol self df_filled
       else Raise (ValueError "FILTER_METHOD must be 'gaussian' or 'savgol'"));
    Ok (_restore_nans filtered nan_mask).

(** The dispatch of [apply] on its own: what the selected method returns for
    the filled table, before the mask is restored. *)
Definition smoothed (self : t) (df : DataFrame) : result DataFrame :=
  if decide (method self = "gaussian") then _apply_gaussian self (fill_missing df)
  else if decide (method self = "savgol") then _apply_savgol self (fill_missing df)
  else Raise (ValueError "FILTER_METHOD must be 'gaussian' or 'savgol'").

End with_smoothers.

End FilterApplier.

(** ** [pipeline/detrend.py] *)

(** [np.linalg.lstsq(A, y, rcond=None)[0]] for the design matrix whose
    columns are [x] and ones: the slope and the intercept of the fitted
    line. Its arithmetic (LAPACK) is not in the repository. *)
Class LinAlg := {
  np_linalg_lstsq : list float → list float → result (float * float)
}.

Module Detrender.

Record t := mk {
  method : string;
  rolling_window : Z
}.

(** The defaults of [__init__]. *)
Definition method_default : string := "none".
Definition rolling_window_default : Z := 201.

Section with_linalg.
Context `{LinAlg}.

(** One column: [s - (m*x + b)] with [x = np.arange(len(s))]. *)
Definition _linear_detrend (self : t) (s : list float) : result (list float) :=
  let x := arange 0 (Z.of_nat (length s)) in
  mb ←r np_linalg_lstsq x s;
  let '(m, b) := mb in
  Ok (zip_with (λ v xi, F64.sub v (F64.add (F64.mul m xi) b)) s x).

Definition _rolling_median_detrend (self : t) (df : DataFrame) : result DataFrame :=
  med ←r rolling (λ w, Ok (median w)) (rolling_window self) 1 df;
  Ok (df_binop F64.sub df (BaseFrame med)).

(** [df.apply(f, axis=0)] calls [f] on every column; on a table with an
    empty axis pandas returns a copy without keeping what [f] does. *)
Definition apply (self : t) (df : DataFrame) : result DataFrame :=
  let m := lower (method self) in
  if decide (m = "none") then Ok df
  else if decide (m = "linear") then
    if empty df then Ok df
    else
      cols ←r rmapM (_linear_detrend self) (df_data df);
      Ok (mkDataFrame (df_index df) (df_columns df) cols)
  else if decide (m = "rolling_median") then
    if (rolling_window self <? 5) || (rolling_window self mod 2 =? 0)
    then Raise (ValueError "rolling_window must be odd and >=5")
    else _rolling_median_detrend self df
  else Raise (ValueError "DETREND_METHOD must be 'none','rolling_median','linear'").

End with_linalg.

End Detrender.

(** ** [pipeline/loader.py] *)

(** [df.dropna(how="all")]: the rows that hold at least one valid cell. *)
Definition row_all_nan (df : DataFrame) (i : nat) : bool :=
  forallb (λ col, F64.isnan (default F64.nan (col !! i))) (df_data df).

Definition kept_rows (df : DataFrame) : list nat :=
  filter (λ i, row_all_nan df i = false) (seq 0 (len df)).

Definition select_rows {A} (keep : list nat) (l : list A) : list A :=
  omap (λ i, l !! i) keep.

Definition dropna_all (df : DataFrame) : DataFrame :=
  let keep := kept_rows df in
  mkDataFrame (select_rows keep (df_index df)) (df_columns df)
    (map (select_rows keep) (df_data df)).

(** [df.reset_index(drop=True)]: the rows are numbered from 0. *)
Definition reset_index (df : DataFrame) : DataFrame :=
  mkDataFrame (map Z.of_nat (seq 0 (len df))) (df_columns df) (df_data df).

(** [[f"ROI_{i+1}" for i in range(k)]] *)
Definition roi_names (k : nat) : list string :=
  map (λ i, "ROI_" ++ str_Z (Z.of_nat i + 1)) (seq 0 k).

(** [df.columns = names] *)
Definition set_columns (names : list string) (df : DataFrame) : DataFrame :=
  mkDataFrame (df_index df) names (df_data df).

(** [df.iloc[k:].reset_index(drop=True)] *)
Definition drop_frames (k : Z) (df : DataFrame) : DataFrame :=
  reset_index (iloc_rows k (Z.of_nat (len df)) df).

Module SignalLoader.

(** [load], from the table that [pd.read_csv] or [pd.read_excel] returned
    (no header row) once [pd.to_numeric(errors="coerce")] has made every cell
    a float, NaN for what is not a number. Finding and parsing the file is
    left to the caller. *)
Definition load (drop_first : Z) (read : DataFrame) : result DataFrame :=
  let df := reset_index (dropna_all read) in
  let df := set_columns (roi_names (length (df_columns df))) df in
  if 0 <? drop_first then
    if Z.of_nat (len df) <=? drop_first
    then Raise (ValueError "Requested to drop more frames than available")
    else Ok (drop_frames drop_first df)
  else Ok df.

End SignalLoader.

(** ** [run_pipeline.py] and the endpoint [/process/roi] of [api.py] *)

Module Pipeline.

(** The configuration of [run_pipeline]: [DEFAULT_CONFIG] merged with the
    overrides. *)
Record config := mkConfig {
  drop_first : Z;
  stim_frame : option Z;
  baseline_mode : string;
  pre_window : Z;
  rolling_window : Z;
  baseline_rolling_window : option Z;
  detrend_rolling_window : option Z;
  normalization_mode : string;
  global_percentile_q : float;
  rolling_percentile_q : float;
  detrend : string;
  filter_method : string;
  gaussian_sigma : float;
  savgol_window : Z;
  savgol_poly : Z
}.

Definition DEFAULT_CONFIG : config := {|
  drop_first := 10;
  stim_frame := Some 44;
  baseline_mode := "pre_stim_median";
  pre_window := 43;
  rolling_window := 101;
  baseline_rolling_window := None;
  detrend_rolling_window := None;
  normalization_mode := "dff";
  global_percentile_q := F64.of_Z 30;
  rolling_percentile_q := F64.of_Z 10;
  detrend := "none";
  filter_method := "savgol";
  gaussian_sigma := F64.lit_2;
  savgol_window := 30;
  savgol_poly := 3
|}.

(** [ProcessParams] of [schemas.py] as [_parse_params] returns it: a value
    for the keys the request gave, nothing for the others. *)
Record params := mkParams {
  p_drop_first : option Z;
  p_stim_frame : option Z;
  p_baseline_mode : option string;
  p_pre_window : option Z;
  p_rolling_window : option Z;
  p_baseline_rolling_window : option Z;
  p_detrend_rolling_window : option Z;
  p_global_percentile_q : option float;
  p_gaussian_sigma : option float;
  p_rolling_percentile_q : option float;
  p_detrend : option string;
  p_normalization_mode : option string;
  p_filter_method : option string;
  p_savgol_window : option Z;
  p_savgol_poly : option Z
}.

(** [{**DEFAULT_CONFIG, **config_overrides}] for the overrides that
    [_parse_params] returns. *)
Definition merge (p : params) : config := {|
  drop_first := default (drop_first DEFAULT_CONFIG) (p_drop_first p);
  stim_frame := match p_stim_frame p with
                | Some s => Some s
                | None => stim_frame DEFAULT_CONFIG
                end;
  baseline_mode := default (baseline_mode DEFAULT_CONFIG) (p_baseline_mode p);
  pre_window := default (pre_window DEFAULT_CONFIG) (p_pre_window p);
  rolling_window := default (rolling_window DEFAULT_CONFIG) (p_rolling_window p);
  baseline_rolling_window := match p_baseline_rolling_window p with
                             | Some w => Some w
                             | None => baseline_rolling_window DEFAULT_CONFIG
                             end;
  detrend_rolling_window := match p_detrend_rolling_window p with
                            | Some w => Some w
                            | None => detrend_rolling_window DEFAULT_CONFIG
                            end;
  normalization_mode := default (normalization_mode DEFAULT_CONFIG) (p_normalization_mode p);
  global_percentile_q := default (global_percentile_q DEFAULT_CONFIG) (p_global_percentile_q p);
  rolling_percentile_q := default (rolling_percentile_q DEFAULT_CONFIG) (p_rolling_percentile_q p);
  detrend := default (detrend DEFAULT_CONFIG) (p_detrend p);
  filter_method := default (filter_method DEFAULT_CONFIG) (p_filter_method p);
  gaussian_sigma := default (gaussian_sigma DEFAULT_CONFIG) (p_gaussian_sigma p);
  savgol_window := default (savgol_window DEFAULT_CONFIG) (p_savgol_window p);
  savgol_poly := default (savgol_poly DEFAULT_CONFIG) (p_savgol_poly p)
|}.

(** [override or fallback] on an optional integer: [None] and [0] are
    falsy. *)
Definition or_window (override : option Z) (fallback : Z) : Z :=
  match override with
  | None | Some 0 => fallback
  | Some w => w
  end.

(** The literal [0.2], 0x3FC999999999999A: the default [roll_min_frac] of
    [BaselineComputer], which neither entry point sets; and the default
    [gauss_boundary] of [FilterApplier]. *)
Definition roll_min_frac_default : float := Eval vm_compute in F64.div (F64.of_Z 1) (F64.of_Z 5).
Definition gauss_boundary_default : string := "reflect".

(** What a run computes before anything is written, drawn or sent. *)
Record tables := mkTables {
  df_raw : DataFrame;
  F0_df : DataFrame;
  f0_vec : Series;
  sub_df : DataFrame;
  dff_df : DataFrame;
  filter_df : DataFrame
}.

Section with_numerics.
Context {ST : Stats} {LA : LinAlg} {SM : Smoothers}.

(** [run_pipeline], from the table read from [input_path]. The workbook
    ([dff_df] or [sub_df]) and the plots are written from the tables it
    returns. *)
Definition run_pipeline (cfg : config) (read : DataFrame) : result tables :=
  df_raw ←r SignalLoader.load (drop_first cfg) read;
  let baseline_rw := or_window (baseline_rolling_window cfg) (rolling_window cfg) in
  let detrend_rw := or_window (detrend_rolling_window cfg) (rolling_window cfg) in
  let baseline :=
    BaselineComputer.mk (baseline_mode cfg) (stim_frame cfg) (pre_window cfg)
      baseline_rw (global_percentile_q cfg) (rolling_percentile_q cfg)
      roll_min_frac_default in
  F0 ←r BaselineComputer.compute baseline df_raw;
  let '(F0_df, f0_vec) := F0 in
  df_detr ←r Detrender.apply (Detrender.mk (detrend cfg) detrend_rw) df_raw;
  sub_df ←r Normalizer.subtract df_detr (BaseFrame F0_df);
  dff_df ←r Normalizer.deltaF_over_F df_detr (BaseFrame F0_df)
              Normalizer.eps_default false false Normalizer.fillna_default;
  let norm_mode := lower (normalization_mode cfg) in
  norm_df ←r
    (if decide (norm_mode = "subtract") then Ok sub_df
     else if decide (norm_mode = "dff") then Ok dff_df
     else Raise (ValueError "Unknown normalization_mode: expected 'dff' or 'subtract'"));
  let filterer :=
    FilterApplier.init (Some (filter_method cfg)) (gaussian_sigma cfg)
      gauss_boundary_default (savgol_window cfg) (savgol_poly cfg) in
  filter_df ←r FilterApplier.apply filterer norm_df;
  Ok (mkTables df_raw F0_df f0_vec sub_df dff_df filter_df).

(** [process_roi], from the table read from the uploaded file, for a file
    that holds numbers. The JSON response lists the tables it returns; any
    exception becomes an HTTP 400 that carries its message. *)
Definition process_roi (p : params) (read : DataFrame) : result tables :=
  let df_raw := set_columns (roi_names (length (df_columns read))) read in
  let drop_first := default 10 (p_drop_first p) in
  let stim_frame := default 44 (p_stim_frame p) in
  let baseline_mode := default "pre_stim_median" (p_baseline_mode p) in
  let pre_window := default 43 (p_pre_window p) in
  let rolling_window := default 101 (p_rolling_window p) in
  let global_percentile_q := default (F64.of_Z 30) (p_global_percentile_q p) in
  let rolling_percentile_q := default (F64.of_Z 10) (p_rolling_percentile_q p) in
  let detrend_method := default "none" (p_detrend p) in
  let norm_mode :=
    lower (match p_normalization_mode p with
           | None | Some "" => "dff"
           | Some m => m
           end) in
  let gaussian_sigma := default F64.lit_2 (p_gaussian_sigma p) in
  let filter_method := default "savgol" (p_filter_method p) in
  let savgol_window := default 30 (p_savgol_window p) in
  let savgol_poly := default 3 (p_savgol_poly p) in
  let df_raw := if 0 <? drop_first then drop_frames drop_first df_raw else df_raw in
  let baseline :=
    BaselineComputer.mk baseline_mode (Some stim_frame) pre_window rolling_window
      global_percentile_q rolling_percentile_q roll_min_frac_default in
  F0 ←r BaselineComputer.compute baseline df_raw;
  let '(F0_df, f0_vec) := F0 in
  df_detr ←r Detrender.apply (Detrender.mk detrend_method rolling_window) df_raw;
  sub_df ←r Normalizer.subtract df_detr (BaseFrame F0_df);
  dff_df ←r Normalizer.deltaF_over_F df_detr (BaseFrame F0_df)
              Normalizer.eps_default false false Normalizer.fillna_default;
  let norm_df := if decide (norm_mode = "dff") then dff_df else sub_df in
  let filterer :=
    FilterApplier.init (Some filter_method) gaussian_sigma gauss_boundary_default
      savgol_window savgol_poly in
  filter_norm_df ←r FilterApplier.apply filterer norm_df;
  Ok (mkTables df_raw F0_df f0_vec sub_df dff_df filter_norm_df).

End with_numerics.

End Pipeline.

(** * Vocabulary of the statements *)

Import Normalizer.

(** The entry of the right operand that lines up with row [r], column [c]. *)
Definition base_at (other : BaseLike) (r : Z) (c : string) : option float :=
  match other with
  | BaseFrame b => at_ b r c
  | BaseSeries s => series_get s c
  | BaseScalar x => Some x
  end.

(** The right operand carries the labels of the table: nothing to align. *)
Definition labels_match (df : DataFrame) (other : BaseLike) : Prop :=
  match other with
  | BaseFrame b => df_index b = df_index df ∧ df_columns b = df_columns df
  | BaseSeries s => s_index s = df_columns df
  | BaseScalar _ => True
  end.

Definition same_labels (out df : DataFrame) : Prop :=
  df_index out = df_index df ∧ df_columns out = df_columns df.

(** Making an integer odd, upwards or downwards, and the largest odd number
    that does not exceed [n]. *)
Definition round_up_odd (w : Z) : Z := if Z.even w then w + 1 else w.
Definition round_down_odd (w : Z) : Z := if Z.even w then w - 1 else w.
Definition largest_odd_le (n : Z) : Z := if Z.odd n then n else n - 1.

(** The specification's reading of the Savitzky-Golay window: the configured
    value made odd by rounding down, then clamped. *)
Definition savgol_window_spec (n savgol_window : Z) : Z :=
  Z.max 3 (Z.min (round_down_odd savgol_window) (largest_odd_le n)).

(** What [deltaF_over_F] does to a quotient after the division: percent
    scaling, infinities to missing, the fill, the clip. *)
Definition finish (as_percent clip_negatives : bool) (fillna_value : option float)
    (q : float) : float :=
  let q := if as_percent then F64.mul q F64.lit_100 else q in
  let q := replace_inf q in
  let q := match fillna_value with Some v => fillna v q | None => q end in
  if clip_negatives then clip_lower F64.zero q else q.

(** The table [deltaF_over_F] returns, as one expression. *)
Definition dff_table (df : DataFrame) (baseline : BaseLike) (eps : float)
    (as_percent clip_negatives : bool) (fillna_value : option float) : DataFrame :=
  let safe_base := _safe_baseline baseline eps in
  let out := df_binop F64.div (df_binop F64.sub df safe_base) safe_base in
  let out := if as_percent then df_binop F64.mul out (BaseScalar F64.lit_100) else out in
  let out := df_map replace_inf out in
  let out := match fillna_value with Some v => df_map (fillna v) out | None => out end in
  if clip_negatives then df_map (clip_lower F64.zero) out else out.

(** The cells of a column at the positions [a], [a + 1], ..., [b - 1]. *)
Definition rows_between (a b : Z) (col : list float) : list float :=
  omap (λ k, col !! k) (seq (Z.to_nat a) (Z.to_nat b - Z.to_nat a)).

(** One column of [_restore_nans]. *)
Definition restore_column (filtered : list float) (mask : list bool) : list float :=
  zip_with (λ x (m : bool), if m then F64.nan else x) filtered mask.

(** A value that is not negative: +0, a positive number, +inf, or NaN. *)
Definition nonneg_or_nan (x : float) : bool :=
  match x with
  | S754_zero false | S754_finite false _ _ | S754_infinity false | S754_nan => true
  | _ => false
  end.

(** An infinity or NaN: what an infinite sample times a non-negative weight
    can be. *)
Definition inf_like (x : float) : Prop := x = F64.pinf ∨ x = F64.ninf ∨ x = F64.nan.

(** What [bfill().ffill()] leaves in row [i] of a column: the first valid
    cell at or below row [i]; when there is none, the last valid cell above
    it; NaN when the column has no valid cell. *)
Definition filled_value (col : list float) (i : nat) : float :=
  match head (dropna (drop i col)) with
  | Some v => v
  | None => default F64.nan (last (dropna (take i col)))
  end.

(** The column holds a valid cell. *)
Definition has_valid (col : list float) : Prop :=
  ∃ x, x ∈ col ∧ F64.isnan x = false.

(** The three strategies that follow the signal with a centered window. *)
Definition rolling_mode (m : string) : Prop :=
  m = "rolling_median" ∨ m = "rolling_percentile" ∨ m = "rolling_mean".

(** The table has one list of cells per column name and one cell per row in
    each of them. *)
Definition rectangular (df : DataFrame) : Prop :=
  length (df_data df) = length (df_columns df)
  ∧ Forall (λ col, length col = len df) (df_data df).

(** A table as [pd.read_csv] and [pd.read_excel] return it without a header
    row: rectangular, its rows numbered from 0. *)
Definition freshly_read (df : DataFrame) : Prop :=
  rectangular df ∧ df_index df = map Z.of_nat (seq 0 (len df)).


(** * Examples and reference numerics *)

(** Linear interpolation between the two nearest order statistics, and the
    plain mean: instances of [Stats] to run the examples. *)
Definition floor_int (x : float) : Z :=
  match x with
  | S754_finite s m e =>
      let sm := if s then Z.neg m else Z.pos m in
      if 0 <=? e then sm * 2 ^ e else sm / 2 ^ (- e)
  | _ => 0
  end.

Definition quantile_linear (col : list float) (p : float) : float :=
  let v := isort F64.leb (dropna col) in
  match v with
  | [] => F64.nan
  | _ =>
      let pos := F64.mul (F64.of_Z (Z.of_nat (length v) - 1)) p in
      let lo := floor_int pos in
      let a := default F64.nan (v !! Z.to_nat lo) in
      let b := default a (v !! Z.to_nat (lo + 1)) in
      F64.add a (F64.mul (F64.sub b a) (F64.sub pos (F64.of_Z lo)))
  end.

Definition ref_stats : Stats := {|
  pd_quantile := quantile_linear;
  np_nanquantile := λ a p,
    if F64.leb F64.zero p && F64.leb p (F64.of_Z 1) then Ok (quantile_linear a p)
    else Raise (ValueError "Quantiles must be in the range [0, 1]");
  pd_rolling_mean := λ w, F64.div (fsum w) (F64.of_Z (Z.of_nat (length w)))
|}.

(** A reference [exp]: the power series of [exp |x|], inverted for a negative
    argument. *)
Fixpoint exp_series (fuel : nat) (y term acc : float) (k : Z) : float :=
  match fuel with
  | O => acc
  | S fuel' =>
      let term' := F64.div (F64.mul term y) (F64.of_Z k) in
      exp_series fuel' y term' (F64.add acc term') (k + 1)
  end.

Definition exp_ref (x : float) : float :=
  let e := exp_series 80 (F64.abs x) (F64.of_Z 1) (F64.of_Z 1) 1 in
  if F64.ltb x F64.zero then F64.div (F64.of_Z 1) e else e.

(** The runtime in which neither SciPy import succeeded. *)
Definition numpy_only : Smoothers := {|
  HAVE_SCIPY_SG := false;
  savgol_filter := λ _ _ _, Raise (ImportError "scipy.signal");
  HAVE_SCIPY_GAUSS := false;
  gaussian_filter1d := λ _ _ _, Raise (ImportError "scipy.ndimage");
  np_exp := exp_ref
|}.

(** A stand-in runtime in which both SciPy imports succeeded; its smoothers
    return their input. It only serves to run the Savitzky-Golay path. *)
Definition scipy_stub : Smoothers := {|
  HAVE_SCIPY_SG := true;
  savgol_filter := λ arr _ _, Ok arr;
  HAVE_SCIPY_GAUSS := true;
  gaussian_filter1d := λ arr _ _, Ok arr;
  np_exp := exp_ref
|}.

(** A small signal: three frames, two channels, one missing cell; and a
    per-channel baseline whose first entry is exactly 0. *)
Definition ex_signal : DataFrame :=
  mkDataFrame [0; 1; 2] ["ROI_1"; "ROI_2"]
    [ [F64.of_Z 10; F64.of_Z 12; F64.of_Z 14];
      [F64.of_Z 3; F64.nan; F64.of_Z 7] ].

Definition ex_f0 : Series :=
  mkSeries ["ROI_1"; "ROI_2"] [F64.zero; F64.of_Z 2].

(** 1e300, 0x7E37E43C8800759C, alone in a table. *)
Definition lit_1e300 : float := S754_finite false 6724873095247260 944.

Definition ex_huge : DataFrame := mkDataFrame [0] ["ROI_1"] [[lit_1e300]].

(** A column that holds both infinities and no missing cell, and the table
    the Gaussian fallback makes of it. *)
Definition ex_inf : DataFrame := mkDataFrame [0; 1] ["ROI_1"] [[F64.pinf; F64.ninf]].
Definition ex_all_nan : DataFrame := mkDataFrame [0; 1] ["ROI_1"] [[F64.nan; F64.nan]].

(** The example of the specification: 100 frames, 2 channels, to be used with
    the stimulus at frame 44 and a pre-window of 43. *)
Definition ex100 : DataFrame :=
  mkDataFrame (map Z.of_nat (seq 0 100)) ["ROI_1"; "ROI_2"]
    [ map (λ k, F64.of_Z (Z.of_nat k)) (seq 0 100);
      map (λ k, F64.of_Z (2 * Z.of_nat k + 1)) (seq 0 100) ].

(** Configurations: the stimulus at frame 2 with windows of 3 and a minimum
    fraction of 0.25; the pre-stimulus median; the two filters. *)
Definition ex_baseline (mode : string) : BaselineComputer.t :=
  BaselineComputer.mk mode (Some 2) 3 3 (F64.of_Z 30) (F64.of_Z 10) (F64.of_dyadic 1 (-2)).

Definition ex_pre_stim (stim : option Z) (pre_window : Z) : BaselineComputer.t :=
  BaselineComputer.mk "pre_stim_median" stim pre_window 101
    (F64.of_Z 30) (F64.of_Z 10) (F64.of_dyadic 1 (-2)).

Definition ex_gaussian (sigma : float) : FilterApplier.t :=
  FilterApplier.mk "gaussian" sigma "reflect" 30 3.

Definition ex_savgol (window poly : Z) : FilterApplier.t :=
  FilterApplier.mk "savgol" (F64.of_Z 2) "reflect" window poly.

(** The least-squares line in closed form: an instance of [LinAlg] to run
    the examples. *)
Definition lstsq_line (x y : list float) : result (float * float) :=
  let n := F64.of_Z (Z.of_nat (length x)) in
  let sx := fsum x in
  let sy := fsum y in
  let m := F64.div (F64.sub (F64.mul n (dot x y)) (F64.mul sx sy))
                   (F64.sub (F64.mul n (dot x x)) (F64.mul sx sx)) in
  Ok (m, F64.div (F64.sub sy (F64.mul m sx)) n).

Definition ref_linalg : LinAlg := {| np_linalg_lstsq := lstsq_line |}.

(** A table as read from a file: four rows, the second one blank, and a
    cell that is no number in the third. *)
Definition ex_read : DataFrame :=
  mkDataFrame [0; 1; 2; 3] ["0"; "1"]
    [ [F64.of_Z 1; F64.nan; F64.of_Z 3; F64.of_Z 4];
      [F64.of_Z 5; F64.nan; F64.nan; F64.of_Z 8] ].

(** A request that sets [drop_first] and [normalization_mode] only. *)
Definition ex_params (drop_first : option Z) (normalization_mode : option string)
    : Pipeline.params :=
  Pipeline.mkParams drop_first None None None None None None None None None None
    normalization_mode None None None.

(** Five frames of one channel, on the line 2 i + 1. *)
Definition ex_line : DataFrame :=
  mkDataFrame [0; 1; 2; 3; 4] ["ROI_1"]
    [ [F64.of_Z 1; F64.of_Z 3; F64.of_Z 5; F64.of_Z 7; F64.of_Z 9] ].

(** The global percentile with the percentile [q], no stimulus frame. *)
Definition ex_percentile (q : float) : BaselineComputer.t :=
  BaselineComputer.mk "global_percentile" None 43 101 q (F64.of_Z 10)
    Pipeline.roll_min_frac_default.

(** A request for the table [ex_read]: nothing dropped, the stimulus at
    frame 1, a pre-window of 3, the Gaussian filter. *)
Definition ex_request : Pipeline.params :=
  Pipeline.mkParams (Some 0) (Some 1) None (Some 3) None None None None None None None
    None (Some "gaussian") None None.

(** * Properties *)

(** ** Labels *)

Section labels.
Context `{EqDecision A}.
Implicit Types (x : A) (l r : list A) (le : A → A → bool).

Lemma get_loc_Some x l j : get_loc x l = Some j → l !! j = Some x.
Proof.
  revert j. induction l as [|y l IH]; intros j; simpl; [done|].
  destruct (decide (x = y)) as [->|Hne].
  - intros [= <-]. reflexivity.
  - destruct (get_loc x l) as [k|] eqn:Hk; simpl; [|done].
    intros [= <-]. simpl. by apply IH.
Qed.

Lemma get_loc_elem_of x l : x ∈ l → is_Some (get_loc x l).
Proof.
  induction l as [|y l IH]; [by intros ?%elem_of_nil|].
  intros Hx. simpl. destruct (decide (x = y)) as [->|Hne]; [by eexists|].
  apply elem_of_cons in Hx as [?|Hx]; [done|].
  destruct (IH Hx) as [k ->]. by eexists.
Qed.

Lemma get_loc_None x l : get_loc x l = None → x ∉ l.
Proof.
  intros Hn Hx. apply get_loc_elem_of in Hx as [k Hk]. congruence.
Qed.

Lemma get_loc_lookup x l j : NoDup l → l !! j = Some x → get_loc x l = Some j.
Proof.
  intros Hnd Hj.
  destruct (get_loc_elem_of x l) as [k Hk]; [by eapply list_elem_of_lookup_2|].
  rewrite Hk. f_equal.
  eapply NoDup_lookup; eauto using get_loc_Some.
Qed.

Lemma insert_sorted_perm le x l : insert_sorted le x l ≡ₚ x :: l.
Proof.
  induction l as [|y l IH]; simpl; [done|].
  destruct (le x y); [done|]. rewrite IH. apply Permutation_swap.
Qed.

Lemma isort_perm le l : isort le l ≡ₚ l.
Proof.
  induction l as [|x l IH]; simpl; [done|].
  unfold isort in *. simpl. rewrite insert_sorted_perm. by f_equiv.
Qed.

Lemma isort_length le l : length (isort le l) = length l.
Proof. by rewrite isort_perm. Qed.

Lemma join_outer_same le l : join_outer le l l = l.
Proof. unfold join_outer. by rewrite decide_True. Qed.

Lemma elem_of_join_outer le l r x : x ∈ join_outer le l r ↔ x ∈ l ∨ x ∈ r.
Proof.
  unfold join_outer. destruct (decide (l = r)) as [->|Hne]; [tauto|].
  destruct l as [|a l], r as [|b r].
  - tauto.
  - rewrite elem_of_nil. tauto.
  - rewrite elem_of_nil. tauto.
  - rewrite isort_perm, elem_of_app, list_elem_of_filter.
    destruct (decide (x ∈ a :: l)); tauto.
Qed.

Lemma NoDup_join_outer le l r : NoDup l → NoDup r → NoDup (join_outer le l r).
Proof.
  intros Hl Hr. unfold join_outer. destruct (decide (l = r)); [done|].
  destruct l as [|a l], r as [|b r]; try done.
  rewrite isort_perm. apply NoDup_app. split; [done|]. split.
  - intros x Hx [Hnx _]%list_elem_of_filter. done.
  - by apply NoDup_filter.
Qed.

End labels.

(** ** Cells of an aligned operation *)

Lemma at_mapped_columns (rows : list Z) (cols : list string)
    (f : string → list float) (r : Z) (c : string) :
  c ∈ cols →
  at_ (mkDataFrame rows cols (map f cols)) r c
    = get_loc r rows ≫= λ i, f c !! i.
Proof.
  intros Hc. unfold at_, column. simpl.
  destruct (get_loc_elem_of c cols Hc) as [j Hj]. rewrite Hj. simpl.
  rewrite list_lookup_fmap, (get_loc_Some _ _ _ Hj). reflexivity.
Qed.

Lemma at_column (df : DataFrame) r c s :
  at_ df r c = Some s →
  ∃ col i, column df c = Some col ∧ get_loc r (df_index df) = Some i ∧ col !! i = Some s.
Proof.
  unfold at_. destruct (column df c) as [col|]; simpl; [|done].
  destruct (get_loc r (df_index df)) as [i|]; simpl; [|done].
  eauto.
Qed.

Lemma column_elem_of (df : DataFrame) c col :
  column df c = Some col → c ∈ df_columns df.
Proof.
  unfold column. destruct (get_loc c (df_columns df)) as [j|] eqn:Hj; [|done].
  intros _. eapply list_elem_of_lookup_2, get_loc_Some, Hj.
Qed.

Lemma at_df_map (f : float → float) (df : DataFrame) r c :
  at_ (df_map f df) r c = f <$> at_ df r c.
Proof.
  unfold at_, column, df_map. simpl.
  destruct (get_loc c (df_columns df)) as [j|]; simpl; [|done].
  rewrite list_lookup_fmap. destruct (df_data df !! j) as [col|]; simpl; [|done].
  destruct (get_loc r (df_index df)) as [i|]; simpl; [|done].
  by rewrite list_lookup_fmap.
Qed.

Lemma reindex_rows_lookup old new col r i' :
  new !! i' = Some r →
  reindex_rows old new col !! i' = Some (default F64.nan (get_loc r old ≫= λ i, col !! i)).
Proof.
  intros Hr. unfold reindex_rows. by rewrite list_lookup_fmap, Hr.
Qed.

(** Where both operands have an entry for the labels [(r, c)], the result has
    one too, and it is the operation applied to the two. *)
Lemma at_df_binop op (df : DataFrame) (other : BaseLike) r c s b :
  at_ df r c = Some s →
  base_at other r c = Some b →
  at_ (df_binop op df other) r c = Some (op s b).
Proof.
  intros Hs Hb.
  destruct (at_column _ _ _ _ Hs) as (col & i & Hcol & Hi & Hsi).
  pose proof (column_elem_of _ _ _ Hcol) as Hc.
  destruct other as [bf|sr|x]; simpl in *.
  - (* table *)
    destruct (at_column _ _ _ _ Hb) as (bcol & bi & Hbcol & Hbi & Hbsi).
    rewrite at_mapped_columns by (apply elem_of_join_outer; auto).
    assert (Hr : r ∈ join_outer Z.leb (df_index df) (df_index bf)).
    { apply elem_of_join_outer. left.
      eapply list_elem_of_lookup_2, get_loc_Some, Hi. }
    destruct (get_loc_elem_of _ _ Hr) as [i' Hi']. rewrite Hi'. simpl.
    apply get_loc_Some in Hi'.
    rewrite lookup_zip_with.
    rewrite (reindex_rows_lookup _ _ _ r) by done.
    rewrite (reindex_rows_lookup _ _ _ r) by done. simpl.
    unfold column_or_nan. rewrite Hcol, Hbcol, Hi, Hbi. simpl.
    by rewrite Hsi, Hbsi.
  - (* vector *)
    rewrite at_mapped_columns by (apply elem_of_join_outer; auto).
    rewrite Hi. simpl. unfold column_or_nan. rewrite Hcol. simpl.
    by rewrite list_lookup_fmap, Hsi, Hb.
  - (* scalar *)
    injection Hb as ->.
    change (mkDataFrame (df_index df) (df_columns df)
              (map (map (λ v, op v b)) (df_data df)))
      with (df_map (λ v, op v b) df).
    by rewrite at_df_map, Hs.
Qed.

Lemma base_at_safe_baseline eps other r c :
  base_at (Normalizer._safe_baseline other eps) r c
    = Normalizer.safe_entry eps <$> base_at other r c.
Proof.
  destruct other as [bf|sr|x]; simpl; [apply at_df_map| |done].
  unfold series_get, series_map. simpl.
  destruct (get_loc c (s_index sr)); simpl; [|done].
  by rewrite list_lookup_fmap.
Qed.

(** With matching labels the result keeps the labels. *)
Lemma df_binop_same_labels op df other :
  labels_match df other → same_labels (df_binop op df other) df.
Proof.
  destruct other as [bf|sr|x]; simpl.
  - intros [-> ->]. by rewrite !join_outer_same.
  - intros ->. by rewrite !join_outer_same.
  - done.
Qed.

(** ** The Savitzky-Golay window *)

Lemma lor_1_round_up (w : Z) : Z.lor w 1 = round_up_odd w.
Proof.
  unfold round_up_odd.
  destruct (Z.even w) eqn:Hev.
  - apply Z.even_spec in Hev as [k ->].
    apply Z.bits_inj'; intros i Hi.
    rewrite Z.lor_spec.
    destruct (Z.eq_dec i 0) as [->|Hne].
    + rewrite Z.testbit_even_0, Z.testbit_odd_0. reflexivity.
    + replace i with (Z.succ (i - 1)) by lia.
      rewrite Z.testbit_even_succ, Z.testbit_odd_succ by lia.
      replace (Z.testbit 1 (Z.succ (i - 1))) with false; [apply orb_false_r|].
      symmetry. change 1 with (2 * 0 + 1).
      rewrite Z.testbit_odd_succ by lia. apply Z.testbit_0_l.
  - assert (Hodd : Z.odd w = true) by (rewrite <- Z.negb_even, Hev; reflexivity).
    apply Z.odd_spec in Hodd as [k ->].
    apply Z.bits_inj'; intros i Hi.
    rewrite Z.lor_spec.
    destruct (Z.eq_dec i 0) as [->|Hne].
    + rewrite Z.testbit_odd_0. reflexivity.
    + replace i with (Z.succ (i - 1)) by lia.
      replace (Z.testbit 1 (Z.succ (i - 1))) with false; [apply orb_false_r|].
      symmetry. change 1 with (2 * 0 + 1).
      rewrite Z.testbit_odd_succ by lia. apply Z.testbit_0_l.
Qed.

Lemma largest_odd_le_mod (n : Z) :
  (if n mod 2 =? 1 then n else n - 1) = largest_odd_le n.
Proof.
  unfold largest_odd_le. rewrite Zodd_mod.
  destruct (n mod 2 =? 1); reflexivity.
Qed.

Lemma largest_odd_le_odd (n : Z) : Z.odd (largest_odd_le n) = true.
Proof.
  unfold largest_odd_le. destruct (Z.odd n) eqn:Ho; [done|].
  replace (n - 1) with (Z.pred n) by lia. rewrite Z.odd_pred.
  rewrite <- Z.negb_odd, Ho. reflexivity.
Qed.

Lemma round_up_odd_odd (w : Z) : Z.odd (round_up_odd w) = true.
Proof.
  unfold round_up_odd. destruct (Z.even w) eqn:He.
  - replace (w + 1) with (Z.succ w) by lia. rewrite Z.odd_succ. done.
  - rewrite <- Z.negb_even, He. reflexivity.
Qed.

Lemma savgol_effective_window_spec (n w : Z) :
  3 <= n →
  savgol_effective_window n w
    = Z.max 3 (Z.min (round_up_odd w) (largest_odd_le n))
  ∧ Z.odd (savgol_effective_window n w) = true
  ∧ 3 <= savgol_effective_window n w <= n.
Proof.
  intros Hn. unfold savgol_effective_window.
  rewrite lor_1_round_up, largest_odd_le_mod.
  split; [reflexivity|].
  pose proof (round_up_odd_odd w) as Hw.
  pose proof (largest_odd_le_odd n) as Hm.
  assert (Hle : 3 <= largest_odd_le n <= n).
  { unfold largest_odd_le in *. destruct (Z.odd n) eqn:Ho; [lia|].
    assert (n ≠ 3) by (intros ->; discriminate). lia. }
  split.
  - assert (Hmin : Z.odd (Z.min (round_up_odd w) (largest_odd_le n)) = true)
      by (destruct (Z.min_spec (round_up_odd w) (largest_odd_le n)) as [[_ ->]|[_ ->]]; done).
    destruct (Z.max_spec 3 (Z.min (round_up_odd w) (largest_odd_le n))) as [[_ ->]|[_ ->]]; done.
  - lia.
Qed.

Section savgol_window.
Context `{Smoothers}.
Import FilterApplier.

(** C4, as the code has it. For a table of n >= 3 rows the window handed to
    [savgol_filter] is the configured value made odd by setting its lowest
    bit, which rounds an even value up (not down), then clamped to at most
    the largest odd number <= n and to at least 3; it is odd and lies in
    [3, n]. The filter is called with that window once the polynomial order
    passes the two checks. *)
Theorem C4_savgol_window_rounds_up (self : t) (df : DataFrame) :
  HAVE_SCIPY_SG = true →
  3 <= Z.of_nat (len df) →
  let n := Z.of_nat (len df) in
  let win := Z.max 3 (Z.min (round_up_odd (savgol_window self)) (largest_odd_le n)) in
  savgol_effective_window n (savgol_window self) = win
  ∧ Z.odd win = true
  ∧ 3 <= win <= n
  ∧ _apply_savgol self df
    = if win <=? savgol_poly self
      then Raise (ValueError "SAVGOL_POLY must be < SAVGOL_WINDOW")
      else if win <? savgol_poly self + 2
      then Raise (ValueError "SAVGOL_WINDOW must be at least POLYORDER + 2")
      else arr_out ←r savgol_filter (df_data df) win (savgol_poly self);
           pd_DataFrame arr_out (df_index df) (df_columns df).
Proof.
  intros Hsg Hn n win.
  destruct (savgol_effective_window_spec n (savgol_window self) Hn) as (Hw & Hodd & Hb).
  fold win in Hw. rewrite Hw in Hodd, Hb.
  split; [done|]. split; [done|]. split; [done|].
  unfold _apply_savgol. rewrite Hsg. simpl. fold n.
  destruct (Z.ltb_spec n 3); [lia|]. by rewrite Hw.
Qed.

End savgol_window.

Lemma C4_savgol_window_rounds_up_witness :
  savgol_effective_window 100 30 = 31
  ∧ FilterApplier._apply_savgol (H:=scipy_stub) (ex_savgol 30 3) ex100
    = (arr_out ←r savgol_filter (Smoothers:=scipy_stub) (df_data ex100) 31 3;
       pd_DataFrame arr_out (df_index ex100) (df_columns ex100)).
Proof.
  destruct (C4_savgol_window_rounds_up (H:=scipy_stub) (ex_savgol 30 3) ex100 eq_refl
              ltac:(by vm_compute)) as (Hw & _ & _ & Hap).
  split; [exact Hw|exact Hap].
Defined.

(** C4, as stated (rounding down), fails: the default window 30 on 100 frames
    becomes 31, not 29. *)
Lemma C4_round_down_counterexample :
  savgol_effective_window 100 30 = 31 ∧ savgol_window_spec 100 30 = 29.
Proof. split; reflexivity. Qed.

(** ** Normalizer: ΔF/F *)

Lemma cell_df_map f df i j : cell (df_map f df) i j = f <$> cell df i j.
Proof.
  unfold cell, df_map. simpl. rewrite list_lookup_fmap.
  destruct (df_data df !! j) as [col|]; simpl; [|done].
  by rewrite list_lookup_fmap.
Qed.

Lemma finish_finite_quotient fill q :
  F64.isfinite q = true → finish false false fill q = q.
Proof. unfold finish, replace_inf, fillna. destruct q, fill; done. Qed.

Lemma replace_inf_fillna_finite v q :
  F64.isfinite v = true → F64.isfinite (fillna v (replace_inf q)) = true.
Proof. unfold fillna, replace_inf. destruct q; done. Qed.

Lemma clip_lower_finite x : F64.isfinite x = true → F64.isfinite (clip_lower F64.zero x) = true.
Proof.
  unfold clip_lower. intros Hx.
  destruct (F64.isnan x || F64.geb x F64.zero); done.
Qed.

Lemma to_float_df_Ok df : df_columns df ≠ [] → _to_float_df df = Ok df.
Proof. unfold _to_float_df. by destruct (df_columns df). Qed.

Lemma deltaF_over_F_Ok df baseline eps pct clip fill :
  df_columns df ≠ [] →
  deltaF_over_F df baseline eps pct clip fill = Ok (dff_table df baseline eps pct clip fill).
Proof. intros Hc. unfold deltaF_over_F. by rewrite to_float_df_Ok. Qed.

Lemma deltaF_over_F_inv df baseline eps pct clip fill out :
  deltaF_over_F df baseline eps pct clip fill = Ok out →
  out = dff_table df baseline eps pct clip fill.
Proof.
  unfold deltaF_over_F, _to_float_df. destruct (df_columns df); [done|].
  simpl. by intros [= <-].
Qed.

Lemma at_dff_table df baseline eps pct clip fill r c s b :
  at_ df r c = Some s →
  base_at baseline r c = Some b →
  at_ (dff_table df baseline eps pct clip fill) r c
    = Some (finish pct clip fill
              (F64.div (F64.sub s (safe_entry eps b)) (safe_entry eps b))).
Proof.
  intros Hs Hb. unfold dff_table, finish.
  assert (Hsafe : base_at (_safe_baseline baseline eps) r c = Some (safe_entry eps b))
    by (by rewrite base_at_safe_baseline, Hb).
  pose proof (at_df_binop F64.sub _ _ _ _ _ _ Hs Hsafe) as Hsub.
  pose proof (at_df_binop F64.div _ _ _ _ _ _ Hsub Hsafe) as Hdiv.
  destruct pct, fill as [v|], clip;
    rewrite ?at_df_map;
    try (erewrite (at_df_binop F64.mul); [|exact Hdiv|reflexivity]);
    rewrite ?Hdiv; reflexivity.
Qed.

Lemma dff_table_finite df baseline eps pct clip v i j x :
  F64.isfinite v = true →
  cell (dff_table df baseline eps pct clip (Some v)) i j = Some x →
  F64.isfinite x = true.
Proof.
  intros Hv. unfold dff_table.
  destruct clip; rewrite !cell_df_map;
    match goal with |- context [cell ?d i j] => destruct (cell d i j) as [y|] end;
    simpl; intros [= <-]; auto using clip_lower_finite, replace_inf_fillna_finite.
Qed.

(** C1. [deltaF_over_F] returns a table (for a signal with at least one
    column) whose cell at labels (r, c) is built from the quotient
    (s - F0_safe) / F0_safe, where s is the signal's cell and F0_safe is the
    baseline entry b for (r, c) when |b| >= eps and +eps otherwise; this holds
    for a table, a per-channel vector and a scalar baseline. With the default
    options the cell is the quotient itself whenever the quotient is finite.
    With a finite fill value (the default 0.0 in particular) every cell of the
    output is finite, so a baseline entry of exactly 0 gives no infinity and no
    NaN. *)
Theorem C1_deltaF_over_F_safe_division (df : DataFrame) (baseline : BaseLike)
    (eps : float) (as_percent clip_negatives : bool) (fillna_value : option float) :
  df_columns df ≠ [] →
  ∃ out,
    deltaF_over_F df baseline eps as_percent clip_negatives fillna_value = Ok out
    ∧ (∀ r c s b,
         at_ df r c = Some s →
         base_at baseline r c = Some b →
         let F0_safe := if F64.geb (F64.abs b) eps then b else eps in
         let q := F64.div (F64.sub s F0_safe) F0_safe in
         at_ out r c = Some (finish as_percent clip_negatives fillna_value q)
         ∧ (as_percent = false → clip_negatives = false →
            F64.isfinite q = true → at_ out r c = Some q))
    ∧ (∀ v, fillna_value = Some v → F64.isfinite v = true →
         ∀ i j x, cell out i j = Some x → F64.isfinite x = true).
Proof.
  intros Hc. eexists. split; [by apply deltaF_over_F_Ok|]. split.
  - intros r c s b Hs Hb F0_safe q.
    pose proof (at_dff_table df baseline eps as_percent clip_negatives
                  fillna_value r c s b Hs Hb) as Hat.
    split; [exact Hat|].
    intros -> -> Hq. rewrite Hat. f_equal. by apply finish_finite_quotient.
  - intros v -> Hv i j x. by apply dff_table_finite.
Qed.

Lemma C1_deltaF_over_F_safe_division_witness :
  ∃ out x,
    deltaF_over_F ex_signal (BaseSeries ex_f0) eps_default false false fillna_default = Ok out
    ∧ at_ out 0 "ROI_1" = Some x
    ∧ x = F64.div (F64.sub (F64.of_Z 10) eps_default) eps_default
    ∧ F64.isfinite x = true.
Proof.
  destruct (C1_deltaF_over_F_safe_division ex_signal (BaseSeries ex_f0)
              eps_default false false fillna_default)
    as (out & Hout & Hat & Hfin); [done|].
  destruct (Hat 0 "ROI_1" (F64.of_Z 10) F64.zero eq_refl eq_refl) as [_ Hq].
  exists out, (F64.div (F64.sub (F64.of_Z 10) eps_default) eps_default).
  split; [exact Hout|]. split; [|split; [reflexivity|by vm_compute]].
  apply Hq; [reflexivity|reflexivity|by vm_compute].
Defined.

(** ** Normalizer: a missing baseline entry *)

Lemma safe_entry_nan eps : safe_entry eps F64.nan = eps.
Proof. by destruct eps. Qed.

(** C10, as the code has it. A missing (NaN) baseline entry fails the
    [|F0| >= eps] test and is replaced by +eps before the division, so the
    cell is built from (s - eps) / eps rather than from a missing quotient.
    With the default options it is that quotient whenever the quotient is
    finite; when the division overflows the cell goes through the usual
    clean-up (infinity to missing, then the fill). With a finite fill value
    the cell is finite in every case. *)
Theorem C10_missing_baseline_uses_eps (df : DataFrame) (baseline : BaseLike)
    (eps : float) (as_percent clip_negatives : bool) (fillna_value : option float) :
  df_columns df ≠ [] →
  ∃ out,
    deltaF_over_F df baseline eps as_percent clip_negatives fillna_value = Ok out
    ∧ ∀ r c s,
        at_ df r c = Some s →
        base_at baseline r c = Some F64.nan →
        let q := F64.div (F64.sub s eps) eps in
        base_at (_safe_baseline baseline eps) r c = Some eps
        ∧ at_ out r c = Some (finish as_percent clip_negatives fillna_value q)
        ∧ (as_percent = false → clip_negatives = false →
           F64.isfinite q = true → at_ out r c = Some q)
        ∧ (∀ v x, fillna_value = Some v → F64.isfinite v = true →
           at_ out r c = Some x → F64.isfinite x = true).
Proof.
  intros Hc. eexists. split; [by apply deltaF_over_F_Ok|].
  intros r c s Hs Hb q.
  pose proof (at_dff_table df baseline eps as_percent clip_negatives
                fillna_value r c s F64.nan Hs Hb) as Hat.
  rewrite safe_entry_nan in Hat.
  split; [by rewrite base_at_safe_baseline, Hb; simpl; rewrite safe_entry_nan|].
  split; [exact Hat|]. split.
  - intros -> -> Hq. rewrite Hat. f_equal. by apply finish_finite_quotient.
  - intros v x -> Hv. rewrite Hat. intros [= <-].
    unfold finish. destruct clip_negatives;
      auto using clip_lower_finite, replace_inf_fillna_finite.
Qed.

Lemma C10_missing_baseline_uses_eps_witness :
  ∃ out,
    deltaF_over_F ex_signal (BaseScalar F64.nan) eps_default false false fillna_default = Ok out
    ∧ at_ out 1 "ROI_1"
      = Some (F64.div (F64.sub (F64.of_Z 12) eps_default) eps_default).
Proof.
  destruct (C10_missing_baseline_uses_eps ex_signal (BaseScalar F64.nan)
              eps_default false false fillna_default)
    as (out & Hout & Hat); [done|].
  exists out. split; [exact Hout|].
  destruct (Hat 1 "ROI_1" (F64.of_Z 12) eq_refl eq_refl) as (_ & _ & Hq & _).
  apply Hq; [reflexivity|reflexivity|by vm_compute].
Defined.

(** C10, as stated, fails when the division overflows: the finite signal
    value 1e300 over a missing baseline gives (1e300 - 1e-12) / 1e-12 = +inf,
    which is turned into missing and then filled: the cell is the fill value
    0.0. *)
Lemma C10_overflow_counterexample :
  F64.isfinite lit_1e300 = true
  ∧ F64.div (F64.sub lit_1e300 eps_default) eps_default = F64.pinf
  ∧ deltaF_over_F ex_huge (BaseScalar F64.nan) eps_default false false fillna_default
    = Ok (mkDataFrame [0] ["ROI_1"] [[F64.zero]]).
Proof. by vm_compute. Qed.

(** ** Labels of every transform output *)

Lemma rmapM_Forall2 {A B} (f : A → result B) l l' :
  rmapM f l = Ok l' → Forall2 (λ x y, f x = Ok y) l l'.
Proof.
  revert l'. induction l as [|x l IH]; intros l'; simpl.
  - intros [= <-]. constructor.
  - destruct (f x) as [y|e] eqn:Hy; simpl; [|done].
    destruct (rmapM f l) as [ys|e]; simpl; [|done].
    intros [= <-]. constructor; auto.
Qed.

Lemma rmapM_length {A B} (f : A → result B) l l' :
  rmapM f l = Ok l' → length l' = length l.
Proof. intros Hm. symmetry. eapply Forall2_length, rmapM_Forall2, Hm. Qed.

Lemma rmapM_Ok {A B} (f : A → result B) (g : A → B) l :
  (∀ x, x ∈ l → f x = Ok (g x)) → rmapM f l = Ok (map g l).
Proof.
  induction l as [|x l IH]; intros Hf; simpl; [done|].
  rewrite (Hf x) by left. simpl. rewrite IH; [done|].
  intros y Hy. apply Hf. by right.
Qed.

Lemma bfill_length col : length (bfill col) = length col.
Proof. induction col; simpl; congruence. Qed.

Lemma ffill_from_length last col : length (ffill_from last col) = length col.
Proof. revert last. induction col; intros; simpl; congruence. Qed.

Lemma ffill_length col : length (ffill col) = length col.
Proof. apply ffill_from_length. Qed.

Lemma wf_df_labels out df :
  wf_df df → same_labels out df →
  length (df_data out) = length (df_columns out) →
  Forall (λ col, length col = len out) (df_data out) →
  wf_df out.
Proof.
  intros (_ & _ & Hc & Hi) [Ei Ec] Hl Hf.
  repeat split; [done|done|by rewrite Ec|by rewrite Ei].
Qed.

Lemma pd_DataFrame_inv data index columns out :
  pd_DataFrame data index columns = Ok out →
  out = mkDataFrame index columns data
  ∧ length data = length columns
  ∧ Forall (λ col, length col = length index) data.
Proof.
  unfold pd_DataFrame. case_decide as Hsh; [|done].
  intros [= <-]. tauto.
Qed.

Lemma pd_DataFrame_labels data df out :
  wf_df df →
  pd_DataFrame data (df_index df) (df_columns df) = Ok out →
  same_labels out df ∧ wf_df out.
Proof.
  intros Hwf (-> & Hl & Hf)%pd_DataFrame_inv.
  split; [done|]. by apply (wf_df_labels _ df).
Qed.

Lemma fill_edges_labels base df :
  same_labels base df ∧ wf_df base →
  same_labels (BaselineComputer.fill_edges base) df
  ∧ wf_df (BaselineComputer.fill_edges base).
Proof.
  intros [Hl (Hn & Hf & Hc & Hi)]. split; [done|].
  repeat split; simpl; [by rewrite length_map| |done|done].
  apply Forall_fmap. eapply Forall_impl; [exact Hf|].
  intros col Hcol. simpl. by rewrite ffill_length, bfill_length.
Qed.

Lemma rolling_col_length stat window minp col col' :
  rolling_col stat window minp col = Ok col' → length col' = length col.
Proof. intros Hr%rmapM_length. by rewrite Hr, length_seq. Qed.

Lemma rolling_labels stat window minp df base :
  wf_df df →
  rolling stat window minp df = Ok base →
  same_labels base df ∧ wf_df base.
Proof.
  intros Hwf. unfold rolling. destruct (window <? minp); [done|].
  destruct (rmapM _ (df_data df)) as [cols|e] eqn:Hm; simpl; [|done].
  intros [= <-]. split; [done|].
  pose proof (rmapM_Forall2 _ _ _ Hm) as H2.
  destruct Hwf as (Hn & Hf & Hc & Hi).
  split; [|split; [|done]]; simpl.
  - by rewrite <- (Forall2_length _ _ _ H2).
  - clear Hn Hm. unfold len in *. simpl.
    induction H2 as [|col col' ? ? Hcol]; [constructor|].
    apply Forall_cons in Hf as [Hlen Hf].
    constructor; [|auto].
    apply rolling_col_length in Hcol. congruence.
Qed.

Lemma df_median_length df : length (s_values (df_median df)) = length (df_data df).
Proof. unfold df_median. simpl. by rewrite length_map. Qed.

Section baseline_labels.
Context `{Stats}.
Import BaselineComputer.

Lemma rbind_Ok_inv {A B} (m : result A) (k : A → result B) b :
  rbind m k = Ok b → ∃ a, m = Ok a ∧ k a = Ok b.
Proof. destruct m; simpl; [eauto|done]. Qed.

Lemma compute_labels (self : t) (df : DataFrame) F0 f0 :
  wf_df df →
  compute self df = Ok (F0, f0) →
  same_labels F0 df ∧ wf_df F0.
Proof.
  intros Hwf. unfold compute.
  repeat case_decide; try done.
  - unfold baseline_pre_stim_median.
    intros (_ & _ & Hb)%rbind_Ok_inv.
    destruct (stim_frame self); [|done].
    apply rbind_Ok_inv in Hb as (F & HF & [= <- <-]).
    by eapply pd_DataFrame_labels.
  - unfold baseline_global_median.
    intros (F & HF & [= <- <-])%rbind_Ok_inv.
    by eapply pd_DataFrame_labels.
  - unfold baseline_global_percentile.
    destruct (negb _); [done|].
    intros (F & HF & [= <- <-])%rbind_Ok_inv.
    by eapply pd_DataFrame_labels.
  - unfold baseline_rolling_median.
    intros (_ & _ & Hb)%rbind_Ok_inv.
    apply rbind_Ok_inv in Hb as (minp & _ & Hb).
    apply rbind_Ok_inv in Hb as (base & Hbase & [= <- <-]).
    by eapply fill_edges_labels, rolling_labels.
  - unfold baseline_rolling_percentile, _rolling_apply_quantile.
    intros (base' & Hb & [= <- <-])%rbind_Ok_inv.
    apply rbind_Ok_inv in Hb as (_ & _ & Hb).
    apply rbind_Ok_inv in Hb as (minp & _ & Hb).
    apply rbind_Ok_inv in Hb as (base & Hbase & [= <-]).
    by eapply fill_edges_labels, rolling_labels.
  - unfold baseline_rolling_mean.
    intros (_ & _ & Hb)%rbind_Ok_inv.
    apply rbind_Ok_inv in Hb as (minp & _ & Hb).
    apply rbind_Ok_inv in Hb as (base & Hbase & [= <- <-]).
    by eapply fill_edges_labels, rolling_labels.
Qed.

End baseline_labels.

Lemma column_length df c col :
  wf_df df → column df c = Some col → length col = len df.
Proof.
  intros (_ & Hf & _) Hcol. unfold column in Hcol.
  destruct (get_loc c (df_columns df)) as [j|]; simpl in Hcol; [|done].
  rewrite Forall_forall in Hf. eapply Hf, list_elem_of_lookup_2, Hcol.
Qed.

Lemma column_or_nan_length df c : wf_df df → length (column_or_nan df c) = len df.
Proof.
  intros Hwf. unfold column_or_nan.
  destruct (column df c) as [col|] eqn:Hcol; simpl.
  - by eapply column_length.
  - apply length_replicate.
Qed.

Lemma wf_df_map f df : wf_df df → wf_df (df_map f df).
Proof.
  intros (Hn & Hf & Hc & Hi).
  repeat split; simpl; [by rewrite length_map| |done|done].
  apply Forall_fmap. eapply Forall_impl; [exact Hf|].
  intros col Hcol. simpl. by rewrite length_map.
Qed.

Lemma df_binop_wf op df other :
  wf_df df → labels_match df other → wf_df (df_binop op df other).
Proof.
  intros Hwf Hm.
  pose proof (df_binop_same_labels op df other Hm) as Hl.
  apply (wf_df_labels _ df); [done|done| |].
  - destruct Hwf as (Hn & _). destruct other; simpl; by rewrite ?length_map.
  - destruct Hl as [Ei Ec]. unfold len. rewrite Ei.
    destruct other as [bf|sr|x]; simpl in *.
    + destruct Hm as [-> ->]. rewrite !join_outer_same.
      apply Forall_fmap, Forall_forall. intros c _. simpl.
      unfold reindex_rows. by rewrite length_zip_with, !length_map, Nat.min_id.
    + apply Forall_fmap, Forall_forall. intros c _. simpl.
      rewrite length_map. by apply column_or_nan_length.
    + destruct Hwf as (_ & Hf & _).
      apply Forall_fmap. eapply Forall_impl; [exact Hf|].
      intros col Hcol. simpl. by rewrite length_map.
Qed.

Lemma df_binop_keeps_labels op df other :
  (∀ c, c ∈ df_columns df → c ∈ df_columns (df_binop op df other))
  ∧ (∀ r, r ∈ df_index df → r ∈ df_index (df_binop op df other)).
Proof.
  destruct other as [bf|sr|x]; simpl; split; intros ? ?;
    rewrite ?elem_of_join_outer; auto.
Qed.

Lemma labels_match_safe_baseline df baseline eps :
  labels_match df baseline → labels_match df (_safe_baseline baseline eps).
Proof. by destruct baseline. Qed.

Lemma same_labels_trans a b c : same_labels a b → same_labels b c → same_labels a c.
Proof. unfold same_labels. intros [E1 E2] [E3 E4]. split; congruence. Qed.

Lemma labels_match_same df df' other :
  same_labels df' df → labels_match df other → labels_match df' other.
Proof. unfold same_labels. intros [Ei Ec]. destruct other; simpl; rewrite ?Ei, ?Ec; done. Qed.

Lemma dff_table_labels df baseline eps pct clip fill :
  wf_df df → labels_match df baseline →
  same_labels (dff_table df baseline eps pct clip fill) df
  ∧ wf_df (dff_table df baseline eps pct clip fill).
Proof.
  intros Hwf Hm. unfold dff_table.
  pose proof (labels_match_safe_baseline df baseline eps Hm) as Hs.
  set (sb := _safe_baseline baseline eps) in *.
  pose proof (df_binop_same_labels F64.sub df sb Hs) as L1.
  pose proof (df_binop_wf F64.sub df sb Hwf Hs) as W1.
  pose proof (labels_match_same _ _ _ L1 Hs) as Hs1.
  pose proof (df_binop_same_labels F64.div _ sb Hs1) as L2.
  pose proof (df_binop_wf F64.div _ sb W1 Hs1) as W2.
  pose proof (same_labels_trans _ _ _ L2 L1) as L3.
  destruct pct, fill, clip; simpl; (split; [exact L3|]);
    repeat apply wf_df_map; try exact W2; by apply (df_binop_wf F64.mul).
Qed.

(** C3, as the code has it. The baseline table of every strategy has the
    row labels and the column labels of the signal, in the same order, and
    is rectangular. So do the outputs of [subtract] and of [deltaF_over_F]
    when the baseline carries the signal's labels: a table with the same
    labels, a per-channel vector indexed by the signal's column names, or a
    scalar. For any baseline no label of the signal is dropped. *)
Theorem C3_labels_preserved `{Stats} (self : BaselineComputer.t) (df : DataFrame)
    (baseline : BaseLike) (eps : float) (as_percent clip_negatives : bool)
    (fillna_value : option float) :
  wf_df df →
  (∀ F0 f0, BaselineComputer.compute self df = Ok (F0, f0) →
     same_labels F0 df ∧ wf_df F0)
  ∧ (∀ out, subtract df baseline = Ok out →
       (labels_match df baseline → same_labels out df ∧ wf_df out)
       ∧ (∀ c, c ∈ df_columns df → c ∈ df_columns out)
       ∧ (∀ r, r ∈ df_index df → r ∈ df_index out))
  ∧ (∀ out, deltaF_over_F df baseline eps as_percent clip_negatives fillna_value = Ok out →
       labels_match df baseline → same_labels out df ∧ wf_df out).
Proof.
  intros Hwf. split; [|split].
  - intros F0 f0. by apply compute_labels.
  - intros out. unfold subtract, _to_float_df.
    destruct (df_columns df) eqn:Hc; [done|]. simpl. intros [= <-].
    rewrite <- Hc.
    split; [|apply df_binop_keeps_labels].
    intros Hm. split; [by apply df_binop_same_labels|by apply df_binop_wf].
  - intros out ->%deltaF_over_F_inv Hm. by apply dff_table_labels.
Qed.

Lemma ex_signal_wf : wf_df ex_signal.
Proof. unfold wf_df. compute_done. Qed.

Lemma C3_labels_preserved_witness :
  ∃ F0 f0 out,
    BaselineComputer.compute (H:=ref_stats) (ex_baseline "rolling_median") ex_signal = Ok (F0, f0)
    ∧ same_labels F0 ex_signal
    ∧ subtract ex_signal (BaseSeries ex_f0) = Ok out
    ∧ same_labels out ex_signal.
Proof.
  destruct (C3_labels_preserved (H:=ref_stats) (ex_baseline "rolling_median") ex_signal
              (BaseSeries ex_f0) eps_default false false fillna_default
              ex_signal_wf) as (HF0 & Hsub & _).
  assert (∃ F0 f0, BaselineComputer.compute (H:=ref_stats)
                     (ex_baseline "rolling_median") ex_signal = Ok (F0, f0))
    as (F0 & f0 & HE) by (vm_compute; eauto).
  assert (∃ out, subtract ex_signal (BaseSeries ex_f0) = Ok out)
    as (out & HS) by (vm_compute; eauto).
  exists F0, f0, out.
  split; [exact HE|]. split; [exact (proj1 (HF0 _ _ HE))|].
  split; [exact HS|]. exact (proj1 (proj1 (Hsub _ HS) eq_refl)).
Defined.

(** C3, as stated, fails for a per-channel vector whose names do not match
    the signal's: the output gets the union of the names, here a second,
    entirely missing column. *)
Lemma C3_mismatched_vector_counterexample :
  subtract (mkDataFrame [0] ["ROI_1"] [[F64.of_Z 5]])
           (BaseSeries (mkSeries ["ROI_2"] [F64.of_Z 1]))
  = Ok (mkDataFrame [0] ["ROI_1"; "ROI_2"] [[F64.nan]; [F64.nan]]).
Proof. by vm_compute. Qed.

(** ** The pre-stimulus median *)

Lemma omap_lookup_seq {A} (l : list A) a m :
  (a + m <= length l)%nat →
  omap (λ k, l !! k) (seq a m) = take m (drop a l).
Proof.
  revert a. induction m as [|m IH]; intros a Hle; simpl; [done|].
  destruct (lookup_lt_is_Some_2 l a) as [x Hx]; [lia|].
  rewrite Hx. erewrite (drop_S l x a) by done. simpl.
  f_equal. apply IH. lia.
Qed.

Lemma slice_rows_between (a b : Z) (col : list float) :
  0 <= a <= b → b <= Z.of_nat (length col) →
  slice a b col = rows_between a b col.
Proof.
  intros Hab Hb. unfold slice, rows_between, slice_bound.
  destruct (Z.ltb_spec a 0); [lia|]. destruct (Z.ltb_spec b 0); [lia|].
  rewrite !Z.min_l by lia.
  symmetry. apply omap_lookup_seq. lia.
Qed.

Lemma broadcast_Ok (f0 : Series) (df : DataFrame) :
  wf_df df →
  length (s_values f0) = length (df_data df) →
  BaselineComputer.broadcast f0 df
  = Ok (mkDataFrame (df_index df) (df_columns df) (np_tile (s_values f0) (len df))).
Proof.
  intros (Hn & _) Hl. unfold BaselineComputer.broadcast, pd_DataFrame.
  rewrite decide_True; [done|]. split.
  - unfold np_tile. rewrite length_map. congruence.
  - apply Forall_fmap, Forall_forall. intros v _. simpl. apply length_replicate.
Qed.

Lemma cell_broadcast (index : list Z) (columns : list string) (v : list float)
    (n i j : nat) (x : float) :
  v !! j = Some x → (i < n)%nat →
  cell (mkDataFrame index columns (np_tile v n)) i j = Some x.
Proof.
  intros Hv Hi. unfold cell, np_tile. simpl.
  rewrite list_lookup_fmap, Hv. simpl. by apply lookup_replicate_2.
Qed.

Section pre_stim.
Context `{Stats}.
Import BaselineComputer.

Lemma compute_pre_stim (self : t) df :
  mode self = "pre_stim_median" →
  compute self df = baseline_pre_stim_median self df.
Proof. intros Hm. unfold compute. by rewrite Hm, decide_True. Qed.

Lemma validate_Ok (self : t) (n stim : Z) :
  stim_frame self = Some stim → 1 <= stim <= n → 3 <= pre_window self →
  _validate_stim_and_window self n = Ok tt.
Proof.
  intros Hs Hr Hw. unfold _validate_stim_and_window, _validate_positive. rewrite Hs.
  destruct (Z.leb_spec stim 0); [lia|]. destruct (Z.ltb_spec n stim); [lia|].
  simpl. destruct (Z.ltb_spec (pre_window self) 3); [lia|done].
Qed.

Lemma pre_stim_median_Ok (self : t) (df : DataFrame) (stim : Z) :
  wf_df df →
  stim_frame self = Some stim →
  1 <= stim <= Z.of_nat (len df) →
  3 <= pre_window self →
  let f0 := df_median (iloc_rows (Z.max 0 (stim - pre_window self)) stim df) in
  baseline_pre_stim_median self df
  = Ok (mkDataFrame (df_index df) (df_columns df) (np_tile (s_values f0) (len df)), f0).
Proof.
  intros Hwf Hs Hr Hw. unfold baseline_pre_stim_median.
  rewrite (validate_Ok self _ stim) by done. simpl. rewrite Hs.
  rewrite broadcast_Ok; [done|done|].
  rewrite df_median_length. simpl. by rewrite length_map.
Qed.

(** A failed validation is the whole result, whatever the cells. *)
Lemma pre_stim_median_Raise (self : t) (df : DataFrame) e :
  _validate_stim_and_window self (Z.of_nat (len df)) = Raise e →
  baseline_pre_stim_median self df = Raise e.
Proof. intros Hv. unfold baseline_pre_stim_median. by rewrite Hv. Qed.

Lemma validate_cases (self : t) (n : Z) :
  (_validate_stim_and_window self n = Ok tt
   ∧ ∃ stim, stim_frame self = Some stim ∧ 1 <= stim <= n ∧ 3 <= pre_window self)
  ∨ ((∃ msg, _validate_stim_and_window self n = Raise (ValueError msg))
     ∧ (stim_frame self = None
        ∨ (∃ stim, stim_frame self = Some stim ∧ ¬ 1 <= stim <= n)
        ∨ pre_window self < 3)).
Proof.
  unfold _validate_stim_and_window, _validate_positive.
  destruct (stim_frame self) as [stim|]; [|right; eauto].
  destruct (Z.leb_spec stim 0); simpl.
  { right. split; [eauto|]. right. left. exists stim. split; [done|lia]. }
  destruct (Z.ltb_spec n stim); simpl.
  { right. split; [eauto|]. right. left. exists stim. split; [done|lia]. }
  destruct (Z.ltb_spec (pre_window self) 3).
  { right. split; [eauto|]. by right; right. }
  left. split; [done|]. exists stim. split; [done|lia].
Qed.

(** C2. With a stimulus frame in [1, n] and a pre-window of at least 3, the
    [pre_stim_median] baseline is returned; it has the labels of the signal;
    for each channel its representative value is the median of the rows at
    positions [max(0, stim_frame - pre_window), stim_frame), and every one of
    the n rows of the baseline table carries that value. *)
Theorem C2_pre_stim_median_broadcast (self : t) (df : DataFrame) (stim : Z) :
  wf_df df →
  mode self = "pre_stim_median" →
  stim_frame self = Some stim →
  1 <= stim <= Z.of_nat (len df) →
  3 <= pre_window self →
  ∃ F0 f0,
    compute self df = Ok (F0, f0)
    ∧ same_labels F0 df
    ∧ s_index f0 = df_columns df
    ∧ ∀ j col, df_data df !! j = Some col →
        let m := median (rows_between (Z.max 0 (stim - pre_window self)) stim col) in
        s_values f0 !! j = Some m
        ∧ ∀ i, (i < len df)%nat → cell F0 i j = Some m.
Proof.
  intros Hwf Hm Hs Hr Hw.
  rewrite compute_pre_stim, (pre_stim_median_Ok self df stim) by done.
  set (start := Z.max 0 (stim - pre_window self)).
  eexists _, _. split; [reflexivity|].
  split; [done|]. split; [done|].
  intros j col Hcol.
  set (m := median (rows_between start stim col)).
  assert (Hlen : length col = len df).
  { destruct Hwf as (_ & Hf & _). rewrite Forall_forall in Hf.
    eapply Hf, list_elem_of_lookup_2, Hcol. }
  assert (Hj : map median (map (slice start stim) (df_data df)) !! j = Some m).
  { rewrite !list_lookup_fmap, Hcol. simpl. f_equal. unfold m.
    f_equal. apply slice_rows_between; lia. }
  split; [exact Hj|].
  intros i Hi. by apply cell_broadcast.
Qed.

(** C9. In [pre_stim_median] mode the baseline computation raises if and only
    if the stimulus frame is missing or outside [1, n] or the pre-window is
    below 3. What is raised is the validation's [ValueError]; it depends on
    the configuration and the number of rows only, so it is decided before
    any cell is read, and a raised result carries no baseline. *)
Theorem C9_pre_stim_validation (self : t) (df : DataFrame) :
  wf_df df →
  mode self = "pre_stim_median" →
  let n := Z.of_nat (len df) in
  ((∃ e, compute self df = Raise e)
   ↔ (stim_frame self = None
      ∨ (∃ stim, stim_frame self = Some stim ∧ ¬ 1 <= stim <= n)
      ∨ pre_window self < 3))
  ∧ (∀ e, compute self df = Raise e →
       (∃ msg, e = ValueError msg)
       ∧ _validate_stim_and_window self n = Raise e
       ∧ ∀ df', len df' = len df → compute self df' = Raise e).
Proof.
  intros Hwf Hm n.
  destruct (validate_cases self n) as [[Hv (stim & Hs & Hr & Hw)]|[[msg Hv] Hbad]].
  - pose proof (pre_stim_median_Ok self df stim Hwf Hs Hr Hw) as HOk. simpl in HOk.
    rewrite compute_pre_stim by done. rewrite HOk. split.
    + split; [by intros [e ?]|].
      intros [Hn|[(stim' & Hs' & Hr')|Hw']]; [congruence| |lia].
      rewrite Hs in Hs'. injection Hs' as <-. done.
    + by intros e.
  - pose proof (pre_stim_median_Raise self df _ Hv) as HR.
    rewrite compute_pre_stim by done. rewrite HR. split.
    + split; [done|eauto].
    + intros e [= <-]. split; [eauto|]. split; [done|].
      intros df' Hlen. rewrite compute_pre_stim by done.
      apply pre_stim_median_Raise. by rewrite Hlen.
Qed.

End pre_stim.

Lemma ex100_wf : wf_df ex100.
Proof. unfold wf_df. compute_done. Qed.

Lemma C2_pre_stim_median_broadcast_witness :
  ∃ F0 f0,
    BaselineComputer.compute (H:=ref_stats) (ex_pre_stim (Some 44) 43) ex100 = Ok (F0, f0)
    ∧ s_values f0 !! 0%nat = Some (F64.of_Z 22)
    ∧ s_values f0 !! 1%nat = Some (F64.of_Z 45)
    ∧ (∀ i, (i < 100)%nat → cell F0 i 0 = Some (F64.of_Z 22))
    ∧ (∀ i, (i < 100)%nat → cell F0 i 1 = Some (F64.of_Z 45)).
Proof.
  destruct (C2_pre_stim_median_broadcast (H:=ref_stats) (ex_pre_stim (Some 44) 43) ex100 44
              ex100_wf eq_refl eq_refl ltac:(by vm_compute) ltac:(by vm_compute))
    as (F0 & f0 & HE & _ & _ & Hcols).
  destruct (Hcols 0%nat (map (λ k, F64.of_Z (Z.of_nat k)) (seq 0 100)) eq_refl) as [H0 HF0].
  destruct (Hcols 1%nat (map (λ k, F64.of_Z (2 * Z.of_nat k + 1)) (seq 0 100)) eq_refl)
    as [H1 HF1].
  assert (E0 : median (rows_between (Z.max 0 (44 - 43)) 44
                         (map (λ k, F64.of_Z (Z.of_nat k)) (seq 0 100))) = F64.of_Z 22)
    by (by vm_compute).
  assert (E1 : median (rows_between (Z.max 0 (44 - 43)) 44
                         (map (λ k, F64.of_Z (2 * Z.of_nat k + 1)) (seq 0 100))) = F64.of_Z 45)
    by (by vm_compute).
  exists F0, f0. split; [exact HE|].
  split; [exact (eq_trans H0 (f_equal Some E0))|].
  split; [exact (eq_trans H1 (f_equal Some E1))|].
  split; intros i Hi.
  - exact (eq_trans (HF0 i Hi) (f_equal Some E0)).
  - exact (eq_trans (HF1 i Hi) (f_equal Some E1)).
Defined.

Lemma C9_pre_stim_validation_witness :
  (∃ e, BaselineComputer.compute (H:=ref_stats) (ex_pre_stim (Some 101) 43) ex100 = Raise e)
  ∧ (∃ e, BaselineComputer.compute (H:=ref_stats) (ex_pre_stim None 43) ex100 = Raise e)
  ∧ (∃ e, BaselineComputer.compute (H:=ref_stats) (ex_pre_stim (Some 44) 2) ex100 = Raise e)
  ∧ ¬ (∃ e, BaselineComputer.compute (H:=ref_stats) (ex_pre_stim (Some 100) 3) ex100 = Raise e).
Proof.
  split; [|split; [|split]].
  - apply (C9_pre_stim_validation (H:=ref_stats) (ex_pre_stim (Some 101) 43) ex100 ex100_wf eq_refl).
    right. left. exists 101. split; [reflexivity|]. vm_compute. intros [_ Hle]. by apply Hle.
  - apply (C9_pre_stim_validation (H:=ref_stats) (ex_pre_stim None 43) ex100 ex100_wf eq_refl).
    by left.
  - apply (C9_pre_stim_validation (H:=ref_stats) (ex_pre_stim (Some 44) 2) ex100 ex100_wf eq_refl).
    right. right. reflexivity.
  - intros He.
    apply (C9_pre_stim_validation (H:=ref_stats) (ex_pre_stim (Some 100) 3) ex100 ex100_wf eq_refl)
      in He as [Hn|[(stim & Hs & Hr)|Hw]]; [done| |done].
    injection Hs as <-. apply Hr. by vm_compute.
Defined.

(** ** FilterApplier: the temporary fill and the restored mask *)

Lemma isnan_true x : F64.isnan x = true → x = F64.nan.
Proof. by destruct x. Qed.

Lemma bfill_keeps col i x :
  col !! i = Some x → F64.isnan x = false → bfill col !! i = Some x.
Proof.
  revert i. induction col as [|y col IH]; intros [|i]; simpl; try done.
  - intros [= ->] ->. done.
  - apply IH.
Qed.

Lemma ffill_from_keeps last col i x :
  col !! i = Some x → F64.isnan x = false → ffill_from last col !! i = Some x.
Proof.
  revert last i. induction col as [|y col IH]; intros last [|i]; simpl; try done.
  - intros [= ->] ->. done.
  - apply IH.
Qed.

Lemma fill_column_length col : length (FilterApplier.fill_column col) = length col.
Proof.
  unfold FilterApplier.fill_column. destruct (forallb F64.isnan col); [done|].
  by rewrite ffill_length, bfill_length.
Qed.

Lemma fill_column_keeps col i x :
  col !! i = Some x → F64.isnan x = false →
  FilterApplier.fill_column col !! i = Some x.
Proof.
  intros Hx Hn. unfold FilterApplier.fill_column.
  destruct (forallb F64.isnan col); [done|].
  apply ffill_from_keeps; [|done]. by apply bfill_keeps.
Qed.

Lemma restore_column_lookup filtered col i x y :
  col !! i = Some x → filtered !! i = Some y →
  restore_column filtered (map F64.isnan col) !! i
    = Some (if F64.isnan x then F64.nan else y).
Proof.
  intros Hx Hy. unfold restore_column.
  by rewrite lookup_zip_with, Hy, list_lookup_fmap, Hx.
Qed.

Lemma restore_column_agree filled col :
  length filled = length col →
  (∀ i x, col !! i = Some x → F64.isnan x = false → filled !! i = Some x) →
  restore_column filled (map F64.isnan col) = col.
Proof.
  intros Hlen Hag. apply list_eq. intros i.
  destruct (col !! i) as [x|] eqn:Hx.
  - destruct (lookup_lt_is_Some_2 filled i) as [y Hy].
    { rewrite Hlen. by eapply lookup_lt_Some. }
    rewrite (restore_column_lookup _ _ _ x y) by done.
    destruct (F64.isnan x) eqn:Hn.
    + by rewrite (isnan_true x Hn).
    + rewrite (Hag i x Hx Hn) in Hy. congruence.
  - unfold restore_column. rewrite lookup_zip_with, list_lookup_fmap, Hx.
    by destruct (filled !! i).
Qed.

Lemma zip_with_fmap_same {A B C D} (g : B → C → D) (f : A → B) (h : A → C) (l : list A) :
  zip_with g (map f l) (map h l) = map (λ x, g (f x) (h x)) l.
Proof. induction l; simpl; congruence. Qed.

(** Restoring the mask over the filled table gives the table back. *)
Lemma restore_filled (df : DataFrame) :
  FilterApplier._restore_nans (FilterApplier.fill_missing df) (FilterApplier.isna df) = df.
Proof.
  unfold FilterApplier._restore_nans, FilterApplier.isna, FilterApplier.fill_missing. simpl.
  rewrite zip_with_fmap_same.
  destruct df as [ix cols data]. simpl. f_equal.
  rewrite <- (map_id data) at 2. apply map_ext. intros col.
  apply restore_column_agree; [apply fill_column_length|].
  apply fill_column_keeps.
Qed.

Section filter_identity.
Context `{Smoothers}.
Import FilterApplier.

(** C8. With [sigma <= 0] the Gaussian filter is the identity: [apply]
    returns a table equal to its input, cell by cell, missing cells
    included. *)
Theorem C8_gaussian_nonpositive_sigma_identity (self : t) (df : DataFrame) :
  method self = "gaussian" →
  F64.leb (gaussian_sigma self) F64.zero = true →
  apply self df = Ok df.
Proof.
  intros Hm Hs. unfold apply. destruct (empty df); [done|].
  rewrite Hm, decide_True by done.
  unfold _apply_gaussian. rewrite Hs. simpl.
  by rewrite restore_filled.
Qed.

End filter_identity.

(** ** FilterApplier: missing cells after filtering *)

Lemma fill_missing_wf df : wf_df df → wf_df (FilterApplier.fill_missing df).
Proof.
  intros (Hn & Hf & Hc & Hi).
  repeat split; simpl; [by rewrite length_map| |done|done].
  apply Forall_fmap. eapply Forall_impl; [exact Hf|].
  intros col Hcol. simpl. by rewrite fill_column_length.
Qed.

Lemma cell_Some df i j x :
  cell df i j = Some x → ∃ col, df_data df !! j = Some col ∧ col !! i = Some x.
Proof. unfold cell. destruct (df_data df !! j) as [col|]; simpl; eauto. done. Qed.

Lemma cell_exists df i j :
  wf_df df → (j < length (df_columns df))%nat → (i < len df)%nat →
  ∃ x, cell df i j = Some x.
Proof.
  intros (Hn & Hf & _) Hj Hi. unfold cell.
  destruct (lookup_lt_is_Some_2 (df_data df) j) as [col Hcol]; [lia|].
  rewrite Hcol. simpl. apply lookup_lt_is_Some_2.
  rewrite Forall_forall in Hf. rewrite (Hf col); [done|].
  by eapply list_elem_of_lookup_2.
Qed.

Lemma cell_bounds df i j x :
  wf_df df → cell df i j = Some x →
  (j < length (df_columns df))%nat ∧ (i < len df)%nat.
Proof.
  intros (Hn & Hf & _) (col & Hcol & Hx)%cell_Some.
  split.
  - rewrite <- Hn. by eapply lookup_lt_Some.
  - rewrite Forall_forall in Hf. rewrite <- (Hf col).
    + by eapply lookup_lt_Some.
    + by eapply list_elem_of_lookup_2.
Qed.

Lemma cell_restore_nans filtered df i j x y :
  cell df i j = Some x →
  cell filtered i j = Some y →
  cell (FilterApplier._restore_nans filtered (FilterApplier.isna df)) i j
    = Some (if F64.isnan x then F64.nan else y).
Proof.
  intros (col & Hcol & Hx)%cell_Some (fcol & Hfcol & Hy)%cell_Some.
  unfold cell, FilterApplier._restore_nans, FilterApplier.isna. simpl.
  rewrite lookup_zip_with, Hfcol. simpl.
  rewrite list_lookup_fmap, Hcol. simpl.
  by apply restore_column_lookup.
Qed.

Section filter_mask.
Context `{Smoothers}.
Import FilterApplier.

Lemma apply_smoothed (self : t) df :
  empty df = false →
  apply self df = (filtered ←r smoothed self df; Ok (_restore_nans filtered (isna df))).
Proof. intros He. unfold apply, smoothed. by rewrite He. Qed.

Lemma gaussian_numpy_inv (self : t) d filtered :
  _gaussian_numpy self d = Ok filtered →
  filtered = d ∨ ∃ data, pd_DataFrame data (df_index d) (df_columns d) = Ok filtered.
Proof.
  unfold _gaussian_numpy. destruct (F64.leb _ _); [intros [= <-]; by left|].
  intros (r & _ & Hp)%rbind_Ok_inv.
  apply rbind_Ok_inv in Hp as (cols & _ & Hp). eauto.
Qed.

Lemma apply_gaussian_inv (self : t) d filtered :
  _apply_gaussian self d = Ok filtered →
  filtered = d ∨ ∃ data, pd_DataFrame data (df_index d) (df_columns d) = Ok filtered.
Proof.
  unfold _apply_gaussian, _gaussian_ndimage.
  destruct (F64.leb _ _); [intros [= <-]; by left|].
  destruct HAVE_SCIPY_GAUSS; [|apply gaussian_numpy_inv].
  intros (o & _ & Hp)%rbind_Ok_inv. eauto.
Qed.

Lemma apply_savgol_inv (self : t) d filtered :
  _apply_savgol self d = Ok filtered →
  filtered = d ∨ ∃ data, pd_DataFrame data (df_index d) (df_columns d) = Ok filtered.
Proof.
  unfold _apply_savgol.
  destruct (negb HAVE_SCIPY_SG); [done|].
  destruct (_ <? 3); [intros [= <-]; by left|].
  destruct (_ <=? _); [done|]. destruct (_ <? _); [done|].
  intros (o & _ & Hp)%rbind_Ok_inv. eauto.
Qed.

Lemma smoothed_labels (self : t) df filtered :
  wf_df df → smoothed self df = Ok filtered →
  same_labels filtered df ∧ wf_df filtered.
Proof.
  intros Hwf Hsm. pose proof (fill_missing_wf df Hwf) as Hwf'.
  assert (Hinv : filtered = fill_missing df
                 ∨ ∃ data, pd_DataFrame data (df_index df) (df_columns df) = Ok filtered).
  { unfold smoothed in Hsm. repeat case_decide; [| |done].
    - by apply apply_gaussian_inv in Hsm.
    - by apply apply_savgol_inv in Hsm. }
  destruct Hinv as [->|[data Hp]]; [done|].
  by eapply pd_DataFrame_labels.
Qed.

(** C7, as the code has it. When [apply] returns a table for a non-empty
    input, under either method: the table has the labels and the shape of the
    input; every cell that was missing in the input is missing in the output,
    so no temporarily filled value appears; every other cell holds the value
    the smoother computed for it, and is therefore missing only when that
    value is itself NaN; a column that is entirely missing comes out entirely
    missing. *)
Theorem C7_missing_cells_restored (self : t) (df out : DataFrame) :
  wf_df df →
  empty df = false →
  apply self df = Ok out →
  same_labels out df
  ∧ (∃ filtered,
       smoothed self df = Ok filtered
       ∧ ∀ i j x, cell df i j = Some x →
           ∃ y, cell filtered i j = Some y
                ∧ cell out i j = Some (if F64.isnan x then F64.nan else y))
  ∧ (∀ i j x, cell df i j = Some x → F64.isnan x = true → cell out i j = Some F64.nan)
  ∧ (∀ j, (∀ i x, cell df i j = Some x → F64.isnan x = true) →
          ∀ i x, cell out i j = Some x → F64.isnan x = true).
Proof.
  intros Hwf He. rewrite apply_smoothed by done.
  intros (filtered & Hsm & [= <-])%rbind_Ok_inv.
  destruct (smoothed_labels self df filtered Hwf Hsm) as [[Ei Ec] Hwf'].
  assert (Hcell : ∀ i j x, cell df i j = Some x →
            ∃ y, cell filtered i j = Some y
                 ∧ cell (_restore_nans filtered (isna df)) i j
                   = Some (if F64.isnan x then F64.nan else y)).
  { intros i j x Hx.
    destruct (cell_bounds df i j x Hwf Hx) as [Hj Hi].
    destruct (cell_exists filtered i j Hwf') as [y Hy].
    { by rewrite Ec. } { unfold len. by rewrite Ei. }
    exists y. split; [done|]. by apply cell_restore_nans. }
  split; [done|]. split; [eauto|]. split.
  - intros i j x Hx Hn. destruct (Hcell i j x Hx) as (y & _ & ->). by rewrite Hn.
  - intros j Hall i x Hx.
    destruct (cell_Some _ _ _ _ Hx) as (ocol & Hocol & Hxi).
    unfold _restore_nans, isna in Hocol. simpl in Hocol.
    rewrite lookup_zip_with in Hocol.
    destruct (df_data filtered !! j) as [fcol|] eqn:Hfcol; simpl in Hocol; [|done].
    rewrite list_lookup_fmap in Hocol.
    destruct (df_data df !! j) as [col|] eqn:Hcol; simpl in Hocol; [|done].
    injection Hocol as <-.
    rewrite lookup_zip_with in Hxi.
    destruct (fcol !! i) as [y|]; simpl in Hxi; [|done].
    rewrite list_lookup_fmap in Hxi.
    destruct (col !! i) as [x0|] eqn:Hx0; simpl in Hxi; [|done].
    injection Hxi as <-.
    assert (Hn : F64.isnan x0 = true).
    { apply (Hall i). unfold cell. by rewrite Hcol. }
    by rewrite Hn.
Qed.

End filter_mask.

(** ** A run without SciPy *)

Lemma C8_gaussian_nonpositive_sigma_identity_witness :
  FilterApplier.apply (H:=numpy_only) (ex_gaussian F64.zero) ex_signal = Ok ex_signal
  ∧ FilterApplier.apply (H:=numpy_only) (ex_gaussian (F64.of_Z (-2))) ex_signal = Ok ex_signal.
Proof.
  split.
  - by apply (C8_gaussian_nonpositive_sigma_identity (H:=numpy_only)).
  - by apply (C8_gaussian_nonpositive_sigma_identity (H:=numpy_only)).
Defined.

Lemma C7_missing_cells_restored_witness :
  ∃ out,
    FilterApplier.apply (H:=numpy_only) (ex_gaussian (F64.of_Z 1)) ex_signal = Ok out
    ∧ same_labels out ex_signal
    ∧ cell out 1 1 = Some F64.nan.
Proof.
  assert (∃ out, FilterApplier.apply (H:=numpy_only) (ex_gaussian (F64.of_Z 1)) ex_signal = Ok out)
    as [out Hout] by (vm_compute; eauto).
  exists out. split; [exact Hout|].
  destruct (C7_missing_cells_restored (H:=numpy_only) (ex_gaussian (F64.of_Z 1))
              ex_signal out ex_signal_wf eq_refl Hout) as (Hl & _ & Hnan & _).
  split; [exact Hl|]. by apply (Hnan 1%nat 1%nat F64.nan).
Defined.

(** ** Infinities of both signs under a non-negative kernel *)

Lemma binary_round_aux_nonneg mx ex lx :
  nonneg_or_nan (binary_round_aux F64.prec F64.emax false mx ex lx) = true.
Proof.
  unfold binary_round_aux.
  destruct (shr_fexp _ _ _ _ _) as [mrs' e'].
  destruct (shr_fexp _ _ _ _ _) as [mrs'' e''].
  destruct (shr_m mrs''); [done| |done].
  by destruct (_ <=? _).
Qed.

Lemma add_nonneg x y :
  nonneg_or_nan x = true → nonneg_or_nan y = true → nonneg_or_nan (F64.add x y) = true.
Proof.
  destruct x as [[]|[]| |[] mx ex], y as [[]|[]| |[] my ey]; try done.
  intros _ _. unfold F64.add, SFadd. simpl.
  unfold binary_round.
  destruct (shl_align _ _ _) as [mz ez]. apply binary_round_aux_nonneg.
Qed.

Lemma div_nonneg x y :
  nonneg_or_nan x = true → nonneg_or_nan y = true → nonneg_or_nan (F64.div x y) = true.
Proof.
  destruct x as [[]|[]| |[] mx ex], y as [[]|[]| |[] my ey]; try done.
  intros _ _. unfold F64.div, SFdiv.
  destruct (SFdiv_core_binary _ _ _ _ _ _) as [[mz ez] lz]. apply binary_round_aux_nonneg.
Qed.

Lemma fsum_nonneg l :
  Forall (λ x, nonneg_or_nan x = true) l → nonneg_or_nan (fsum l) = true.
Proof.
  unfold fsum. assert (Hz : nonneg_or_nan F64.zero = true) by done.
  revert Hz. generalize F64.zero.
  induction l as [|x l IH]; intros acc Hacc Hl; simpl; [done|].
  apply Forall_cons in Hl as [Hx Hl]. apply IH; [|done]. by apply add_nonneg.
Qed.

Lemma mul_pinf_nonneg w :
  nonneg_or_nan w = true → F64.mul F64.pinf w = F64.pinf ∨ F64.mul F64.pinf w = F64.nan.
Proof. destruct w as [[]|[]| |[] m e]; try done; auto. Qed.

Lemma mul_ninf_nonneg w :
  nonneg_or_nan w = true → F64.mul F64.ninf w = F64.ninf ∨ F64.mul F64.ninf w = F64.nan.
Proof. destruct w as [[]|[]| |[] m e]; try done; auto. Qed.

Lemma foldl_add_nan l : foldl F64.add F64.nan l = F64.nan.
Proof. induction l; simpl; [done|]. assumption. Qed.

Lemma foldl_add_pinf l :
  Forall inf_like l → (∃ y, y ∈ l ∧ y ≠ F64.pinf) → foldl F64.add F64.pinf l = F64.nan.
Proof.
  induction l as [|x l IH]; intros Hl (y & Hy & Hne); [by apply elem_of_nil in Hy|].
  apply Forall_cons in Hl as [[->|[->| ->]] Hl]; simpl.
  - apply IH; [done|]. apply elem_of_cons in Hy as [->|Hy]; [done|eauto].
  - apply foldl_add_nan.
  - apply foldl_add_nan.
Qed.

Lemma foldl_add_ninf l :
  Forall inf_like l → (∃ y, y ∈ l ∧ y ≠ F64.ninf) → foldl F64.add F64.ninf l = F64.nan.
Proof.
  induction l as [|x l IH]; intros Hl (y & Hy & Hne); [by apply elem_of_nil in Hy|].
  apply Forall_cons in Hl as [[->|[->| ->]] Hl]; simpl.
  - apply foldl_add_nan.
  - apply IH; [done|]. apply elem_of_cons in Hy as [->|Hy]; [done|eauto].
  - apply foldl_add_nan.
Qed.

Lemma fsum_mixed l :
  Forall inf_like l →
  (∃ y, y ∈ l ∧ y ≠ F64.pinf) → (∃ y, y ∈ l ∧ y ≠ F64.ninf) →
  fsum l = F64.nan.
Proof.
  unfold fsum. destruct l as [|x l]; intros Hl (y & Hy & Hyne) (z & Hz & Hzne).
  { by apply elem_of_nil in Hy. }
  apply Forall_cons in Hl as [[->|[->| ->]] Hl]; simpl.
  - apply foldl_add_pinf; [done|].
    apply elem_of_cons in Hy as [->|Hy]; [done|eauto].
  - apply foldl_add_ninf; [done|].
    apply elem_of_cons in Hz as [->|Hz]; [done|eauto].
  - apply foldl_add_nan.
Qed.

(** A window of infinities of both signs against non-negative weights sums
    to NaN. *)
Lemma dot_mixed (xs ws : list float) :
  length xs = length ws →
  Forall (λ x, x = F64.pinf ∨ x = F64.ninf) xs →
  Forall (λ w, nonneg_or_nan w = true) ws →
  F64.pinf ∈ xs → F64.ninf ∈ xs →
  dot xs ws = F64.nan.
Proof.
  intros Hlen Hxs Hws Hp Hn. unfold dot.
  assert (Hprod : ∀ i x w, xs !! i = Some x → ws !! i = Some w →
            zip_with F64.mul xs ws !! i = Some (F64.mul x w)).
  { intros i x w Hx Hw. by rewrite lookup_zip_with, Hx, Hw. }
  assert (Hw : ∀ i x, xs !! i = Some x → ∃ w, ws !! i = Some w ∧ nonneg_or_nan w = true).
  { intros i x Hx. destruct (lookup_lt_is_Some_2 ws i) as [w Hw].
    - rewrite <- Hlen. by eapply lookup_lt_Some.
    - exists w. split; [done|]. rewrite Forall_forall in Hws.
      eapply Hws, list_elem_of_lookup_2, Hw. }
  apply fsum_mixed.
  - apply Forall_forall. intros p Hpin.
    apply list_elem_of_lookup_1 in Hpin as [i Hi].
    rewrite lookup_zip_with in Hi.
    destruct (xs !! i) as [x|] eqn:Hx; simpl in Hi; [|done].
    destruct (Hw i x Hx) as (w & Hwi & Hnn). rewrite Hwi in Hi. simpl in Hi.
    injection Hi as <-.
    rewrite Forall_forall in Hxs.
    destruct (Hxs x) as [-> | ->]; [by eapply list_elem_of_lookup_2|..].
    + destruct (mul_pinf_nonneg w Hnn) as [-> | ->]; unfold inf_like; auto.
    + destruct (mul_ninf_nonneg w Hnn) as [-> | ->]; unfold inf_like; auto.
  - apply list_elem_of_lookup_1 in Hn as [i Hi].
    destruct (Hw i _ Hi) as (w & Hwi & Hnn).
    exists (F64.mul F64.ninf w). split.
    + eapply list_elem_of_lookup_2, Hprod; done.
    + by destruct (mul_ninf_nonneg w Hnn) as [-> | ->].
  - apply list_elem_of_lookup_1 in Hp as [i Hi].
    destruct (Hw i _ Hi) as (w & Hwi & Hnn).
    exists (F64.mul F64.pinf w). split.
    + eapply list_elem_of_lookup_2, Hprod; done.
    + by destruct (mul_pinf_nonneg w Hnn) as [-> | ->].
Qed.

Lemma convolve_alternating_inf (kernel : list float) :
  length kernel = 7%nat →
  Forall (λ w, nonneg_or_nan w = true) kernel →
  np_convolve_valid
    [F64.ninf; F64.pinf; F64.ninf; F64.pinf; F64.ninf; F64.pinf; F64.ninf; F64.pinf]
    kernel = [F64.nan; F64.nan].
Proof.
  intros Hlen Hk. unfold np_convolve_valid. rewrite Hlen. simpl.
  assert (Hrev : Forall (λ w, nonneg_or_nan w = true) (rev kernel)) by by apply Forall_rev.
  assert (Hlr : length (rev kernel) = 7%nat) by by rewrite length_rev.
  rewrite !dot_mixed; try done;
    solve [ repeat constructor; auto | apply list_elem_of_In; simpl; tauto ].
Qed.

Section inf_kernel.
Context `{Smoothers}.
Import FilterApplier.

Lemma gaussian_kernel_nonneg sigma radius :
  (∀ x, nonneg_or_nan (np_exp x) = true) →
  Forall (λ w, nonneg_or_nan w = true) (gaussian_kernel sigma radius).
Proof.
  intros Hexp. unfold gaussian_kernel.
  apply Forall_fmap, Forall_forall. intros w Hw. simpl.
  apply div_nonneg.
  - apply list_elem_of_fmap in Hw as (k & -> & _). apply Hexp.
  - apply fsum_nonneg, Forall_fmap, Forall_forall. intros k _. apply Hexp.
Qed.

Lemma gaussian_kernel_length sigma radius :
  length (gaussian_kernel sigma radius) = Z.to_nat (radius + 1 - - radius).
Proof. unfold gaussian_kernel, arange. by rewrite !length_map, length_seq. Qed.

Lemma gaussian_numpy_inf :
  HAVE_SCIPY_GAUSS = false →
  (∀ x, nonneg_or_nan (np_exp x) = true) →
  apply (ex_gaussian (F64.of_Z 1)) ex_inf = Ok ex_all_nan.
Proof.
  intros Hsc Hexp.
  pose proof (convolve_alternating_inf _ (gaussian_kernel_length (F64.of_Z 1) 3)
                (gaussian_kernel_nonneg (F64.of_Z 1) 3 Hexp)) as Hconv.
  unfold apply, _to_float_df. change (empty ex_inf) with false. cbv iota zeta.
  rewrite decide_True by done.
  unfold _apply_gaussian. rewrite Hsc.
  change (F64.leb (gaussian_sigma (ex_gaussian (F64.of_Z 1))) F64.zero) with false.
  cbv iota. unfold _gaussian_numpy.
  change (F64.leb (gaussian_sigma (ex_gaussian (F64.of_Z 1))) F64.zero) with false.
  cbv iota.
  change (py_round (F64.mul F64.lit_3 (gaussian_sigma (ex_gaussian (F64.of_Z 1)))))
    with (Ok (A:=Z) 3).
  unfold rbind at 2.
  change (Z.max 1 3) with 3.
  change (gauss_boundary (ex_gaussian (F64.of_Z 1))) with "reflect".
  rewrite decide_False by done. rewrite decide_True by (by left).
  change (gaussian_sigma (ex_gaussian (F64.of_Z 1))) with (F64.of_Z 1).
  change (df_data (fill_missing ex_inf)) with [[F64.pinf; F64.ninf]].
  unfold rmapM.
  change (np_pad [F64.pinf; F64.ninf] 3 PadReflect)
    with (Ok [F64.ninf; F64.pinf; F64.ninf; F64.pinf; F64.ninf; F64.pinf; F64.ninf; F64.pinf]).
  cbn [rbind]. rewrite Hconv. by vm_compute.
Qed.

End inf_kernel.

(** C7, as stated, fails in the other direction: the output can be missing
    where the input was not. A column holding +inf and -inf has no missing
    cell; the Gaussian fallback (no SciPy) sums infinities of both signs and
    returns NaN in both rows, whatever non-negative values [np.exp]
    returns. *)
Lemma C7_new_missing_counterexample :
  (∀ i j x, cell ex_inf i j = Some x → F64.isnan x = false)
  ∧ (∀ S : Smoothers,
       HAVE_SCIPY_GAUSS = false →
       (∀ x, nonneg_or_nan (np_exp x) = true) →
       FilterApplier.apply (ex_gaussian (F64.of_Z 1)) ex_inf = Ok ex_all_nan)
  ∧ FilterApplier.apply (H:=numpy_only) (ex_gaussian (F64.of_Z 1)) ex_inf = Ok ex_all_nan.
Proof.
  split; [|split].
  - intros [|[|i]] [|j] x; try done; by intros [= <-].
  - intros S. apply gaussian_numpy_inf.
  - by vm_compute.
Qed.

(** ** Subtracting and adding back *)

(** Where the baseline has an entry for the labels of a signal cell, adding
    the baseline back to [subtract]'s result gives (s - b) + b in binary64 at
    that cell, NaN when the entry is NaN; with matching labels the labels are
    the signal's. *)
Lemma subtract_add_back (df out : DataFrame) (baseline : BaseLike) :
  subtract df baseline = Ok out →
  (∀ r c s b, at_ df r c = Some s → base_at baseline r c = Some b →
     at_ (df_binop F64.add out baseline) r c = Some (F64.add (F64.sub s b) b))
  ∧ (∀ r c s, at_ df r c = Some s → base_at baseline r c = Some F64.nan →
       at_ (df_binop F64.add out baseline) r c = Some F64.nan)
  ∧ (labels_match df baseline → same_labels (df_binop F64.add out baseline) df).
Proof.
  unfold subtract, _to_float_df. destruct (df_columns df) as [|c0 cs] eqn:Hc; [done|].
  simpl. intros [= <-]. split; [|split].
  - intros r c s b Hs Hb.
    apply at_df_binop; [|done]. by apply at_df_binop.
  - intros r c s Hs Hb.
    erewrite at_df_binop; [|by apply at_df_binop|done]. by destruct s.
  - intros Hm.
    pose proof (df_binop_same_labels F64.sub df baseline Hm) as L1.
    eapply same_labels_trans; [|exact L1].
    apply df_binop_same_labels. by eapply labels_match_same.
Qed.

Lemma subtract_add_back_witness :
  ∃ out,
    subtract ex_signal (BaseSeries ex_f0) = Ok out
    ∧ at_ (df_binop F64.add out (BaseSeries ex_f0)) 2 "ROI_2" = Some (F64.of_Z 7)
    ∧ same_labels (df_binop F64.add out (BaseSeries ex_f0)) ex_signal.
Proof.
  assert (∃ out, subtract ex_signal (BaseSeries ex_f0) = Ok out)
    as [out Hout] by (vm_compute; eauto).
  exists out. split; [exact Hout|].
  destruct (subtract_add_back ex_signal out (BaseSeries ex_f0) Hout) as (Hat & _ & Hl).
  split; [|by apply Hl].
  by rewrite (Hat 2 "ROI_2" (F64.of_Z 7) (F64.of_Z 2)).
Defined.

(** In binary64 the round trip is not exact: 1 - 2^60 + 2^60 is 0. *)
Lemma add_back_absorbed :
  F64.add (F64.sub (F64.of_Z 1) (F64.of_Z (2 ^ 60))) (F64.of_Z (2 ^ 60)) = F64.zero.
Proof. by vm_compute. Qed.

(** ** The boundary modes of the Gaussian fallback *)

(** The fallback treats [mirror] as [reflect]: both select NumPy's
    [reflect] padding. *)
Lemma gaussian_numpy_mirror_is_reflect `{Smoothers} (self : FilterApplier.t) (df : DataFrame) :
  FilterApplier._gaussian_numpy
    (FilterApplier.mk (FilterApplier.method self) (FilterApplier.gaussian_sigma self)
       "mirror" (FilterApplier.savgol_window self) (FilterApplier.savgol_poly self)) df
  = FilterApplier._gaussian_numpy
      (FilterApplier.mk (FilterApplier.method self) (FilterApplier.gaussian_sigma self)
         "reflect" (FilterApplier.savgol_window self) (FilterApplier.savgol_poly self)) df.
Proof. reflexivity. Qed.

(** ** The Gaussian fallback returns *)




Section gaussian_returns.
Context `{Smoothers}.
Import FilterApplier.


End gaussian_returns.


(** ** A table without columns *)

(** [_to_float_df] reads the first dtype: both operations of the Normalizer
    raise [IndexError] on a table that has no column. *)
Lemma normalizer_no_columns (df : DataFrame) (baseline : BaseLike) (eps : float)
    (as_percent clip_negatives : bool) (fillna_value : option float) :
  df_columns df = [] →
  (∃ msg, subtract df baseline = Raise (IndexError msg))
  ∧ (∃ msg, deltaF_over_F df baseline eps as_percent clip_negatives fillna_value
            = Raise (IndexError msg)).
Proof.
  intros Hc. unfold subtract, deltaF_over_F, _to_float_df. rewrite Hc. simpl. eauto.
Qed.

Lemma normalizer_no_columns_witness :
  ∃ msg, subtract (mkDataFrame [0; 1] [] []) (BaseScalar F64.zero) = Raise (IndexError msg).
Proof.
  apply (normalizer_no_columns (mkDataFrame [0; 1] [] []) (BaseScalar F64.zero)
           eps_default false false fillna_default eq_refl).
Defined.

(** ** The fill [bfill().ffill()] *)

Lemma dropna_app l1 l2 : dropna (l1 ++ l2)%list = (dropna l1 ++ dropna l2)%list.
Proof. apply filter_app. Qed.

Lemma dropna_nil_iff col : dropna col = [] ↔ Forall (λ x, F64.isnan x = true) col.
Proof.
  unfold dropna. induction col as [|x l IH]; simpl.
  - split; [constructor|done].
  - rewrite filter_cons. destruct (F64.isnan x) eqn:Hx.
    + rewrite decide_False by done. rewrite IH, Forall_cons. tauto.
    + rewrite decide_True by done. split; [done|].
      intros [? _]%Forall_cons. congruence.
Qed.

Lemma dropna_valid col x : x ∈ dropna col ↔ x ∈ col ∧ F64.isnan x = false.
Proof. unfold dropna. by rewrite list_elem_of_filter, (comm and). Qed.

Lemma bfill_lookup col i :
  (i < length col)%nat →
  bfill col !! i = Some (default F64.nan (head (dropna (drop i col)))).
Proof.
  revert i. induction col as [|x l IH]; intros i Hi; simpl in Hi; [lia|].
  destruct i as [|i]; simpl.
  - unfold dropna. rewrite filter_cons. destruct (F64.isnan x) eqn:Hx.
    + rewrite decide_False by done. f_equal.
      destruct l as [|y l']; [done|].
      specialize (IH 0%nat ltac:(simpl; lia)).
      rewrite <- head_lookup in IH. by rewrite IH.
    + by rewrite decide_True.
  - apply IH. lia.
Qed.

Lemma ffill_from_lookup col prev i :
  (i < length col)%nat →
  ffill_from prev col !! i = Some (default prev (last (dropna (take (S i) col)))).
Proof.
  revert prev i. induction col as [|x l IH]; intros prev i Hi; simpl in Hi; [lia|].
  destruct i as [|i].
  - simpl. rewrite take_0. unfold dropna. rewrite filter_cons.
    destruct (F64.isnan x) eqn:Hx.
    + by rewrite decide_False.
    + by rewrite decide_True.
  - change (ffill_from prev (x :: l) !! S i)
      with (ffill_from (if F64.isnan x then prev else x) l !! i).
    rewrite IH by lia. f_equal.
    change (take (S (S i)) (x :: l)) with (x :: take (S i) l).
    unfold dropna. rewrite filter_cons. fold (dropna (take (S i) l)).
    destruct (F64.isnan x) eqn:Hx.
    + by rewrite decide_False.
    + rewrite decide_True by done.
      destruct (dropna (take (S i) l)) as [|y l'] eqn:Hd; [done|].
      rewrite last_cons_cons.
      destruct (last (y :: l')) eqn:E; [done|]. by apply last_None in E.
Qed.

Lemma bfill_all_nan col :
  Forall (λ x, F64.isnan x = true) col → bfill col = col.
Proof.
  induction 1 as [|x l Hx Hl IH]; simpl; [done|].
  rewrite Hx, IH. f_equal.
  apply isnan_true in Hx. subst x.
  destruct Hl as [|y l' Hy]; [done|]. simpl. by apply isnan_true in Hy.
Qed.

Lemma bfill_app_nan l1 l2 :
  Forall (λ x, F64.isnan x = true) l2 → bfill (l1 ++ l2)%list = (bfill l1 ++ l2)%list.
Proof.
  intros Hl2. induction l1 as [|x l IH]; simpl.
  - by apply bfill_all_nan.
  - rewrite IH. f_equal. destruct (F64.isnan x); [|done].
    destruct l as [|y l']; simpl; [|done].
    destruct Hl2 as [|z l2' Hz]; [done|]. simpl. by apply isnan_true in Hz.
Qed.

Lemma last_dropna_bfill col : last (dropna (bfill col)) = last (dropna col).
Proof.
  induction col as [|x l IH]; [done|]. simpl.
  unfold dropna in *. rewrite !filter_cons.
  destruct (filter _ (bfill l)) as [|b bs] eqn:Hb.
  - simpl in IH. symmetry in IH. apply last_None in IH. rewrite IH.
    destruct (F64.isnan x) eqn:Hx; [|by rewrite Hx].
    assert (F64.isnan (default F64.nan (head (bfill l))) = true) as ->; [|done].
    destruct (bfill l) as [|y l'] eqn:Hbl; [done|]. simpl.
    apply dropna_nil_iff in Hb. by apply Forall_cons in Hb as [? _].
  - destruct (filter _ l) as [|c cs] eqn:Hc.
    { by apply last_None in IH. }
    transitivity (last (b :: bs)).
    + case_decide; [|done]. by rewrite last_cons_cons.
    + rewrite IH. case_decide; [|done]. by rewrite last_cons_cons.
Qed.

Lemma ffill_bfill_lookup col i :
  (i < length col)%nat → ffill (bfill col) !! i = Some (filled_value col i).
Proof.
  intros Hi. unfold ffill, filled_value.
  rewrite ffill_from_lookup by (by rewrite bfill_length). f_equal.
  destruct (head (dropna (drop i col))) as [v|] eqn:Hh.
  - assert (F64.isnan v = false) as Hv.
    { apply head_Some_elem_of in Hh. by apply dropna_valid in Hh as [_ ?]. }
    pose proof (bfill_lookup col i Hi) as Hb. rewrite Hh in Hb. simpl in Hb.
    rewrite (take_S_r _ _ _ Hb), dropna_app.
    unfold dropna at 2. rewrite filter_cons, decide_True by done.
    by rewrite filter_nil, last_snoc.
  - apply head_None in Hh. apply dropna_nil_iff in Hh.
    rewrite <- (take_drop i col) at 1.
    rewrite bfill_app_nan by done.
    rewrite take_app_ge; rewrite bfill_length, length_take; [|lia].
    replace (S i - i `min` length col)%nat with 1%nat by lia.
    rewrite dropna_app.
    assert (dropna (take 1 (drop i col)) = []) as ->.
    { apply dropna_nil_iff. by apply Forall_take. }
    rewrite app_nil_r, last_dropna_bfill.
    by destruct (last (dropna (take i col))).
Qed.

Lemma elem_of_take_sub {A} (x : A) n l : x ∈ take n l → x ∈ l.
Proof. intros Hx. rewrite <- (take_drop n l). apply elem_of_app. by left. Qed.

Lemma elem_of_drop_sub {A} (x : A) n l : x ∈ drop n l → x ∈ l.
Proof. intros Hx. rewrite <- (take_drop n l). apply elem_of_app. by right. Qed.

Lemma filled_value_keeps col i x :
  col !! i = Some x → F64.isnan x = false → filled_value col i = x.
Proof.
  intros Hx Hv. unfold filled_value.
  rewrite (drop_S _ _ _ Hx). unfold dropna. rewrite filter_cons.
  by rewrite decide_True.
Qed.

Lemma filled_value_elem col i :
  has_valid col → filled_value col i ∈ col ∧ F64.isnan (filled_value col i) = false.
Proof.
  intros (x & Hx & Hv). unfold filled_value.
  destruct (head (dropna (drop i col))) as [v|] eqn:Hh.
  - apply head_Some_elem_of, dropna_valid in Hh as [Hin ?]. split; [|done].
    by eapply elem_of_drop_sub.
  - apply head_None, dropna_nil_iff in Hh.
    assert (x ∈ take i col) as Hxt.
    { rewrite <- (take_drop i col) in Hx. apply elem_of_app in Hx as [?|Hd]; [done|].
      eapply Forall_forall in Hh; [|exact Hd]. congruence. }
    assert (x ∈ dropna (take i col)) as Hxd by by apply dropna_valid.
    destruct (last (dropna (take i col))) as [y|] eqn:Hl.
    + apply last_Some_elem_of, dropna_valid in Hl as [Hy ?]. split; [|done].
      simpl. by eapply elem_of_take_sub.
    + apply last_None in Hl. rewrite Hl in Hxd. by apply elem_of_nil in Hxd.
Qed.

Lemma filled_value_all_nan col i :
  ¬ has_valid col → filled_value col i = F64.nan.
Proof.
  intros Hn. unfold filled_value.
  assert (∀ l, (∀ y, y ∈ l → y ∈ col) → dropna l = []) as Hd.
  { intros l Hl. apply dropna_nil_iff, Forall_forall. intros y Hy.
    destruct (F64.isnan y) eqn:E; [done|]. destruct Hn. exists y. auto. }
  rewrite (Hd (drop i col)), (Hd (take i col)); [done| |].
  - intros y. apply elem_of_take_sub.
  - intros y. apply elem_of_drop_sub.
Qed.

(** ** The rolling baselines *)

Lemma classic_has_valid col : has_valid col ∨ ¬ has_valid col.
Proof.
  destruct (decide (Exists (λ x, F64.isnan x = false) col)) as [He|He].
  - left. apply Exists_exists in He. exact He.
  - right. intros Hv. apply He, Exists_exists. exact Hv.
Qed.

Lemma validate_positive_inv n name :
  BaselineComputer._validate_positive n name = Ok tt → 3 <= n.
Proof. unfold BaselineComputer._validate_positive. destruct (n <? 3) eqn:E; [done|lia]. Qed.

Lemma rolling_inv stat window minp df base :
  rolling stat window minp df = Ok base →
  minp <= window
  ∧ df_index base = df_index df
  ∧ df_columns base = df_columns df
  ∧ Forall2 (λ col col', rolling_col stat window minp col = Ok col') (df_data df) (df_data base).
Proof.
  unfold rolling. destruct (window <? minp) eqn:E; [done|].
  intros (cols & Hc & [= <-])%rbind_Ok_inv. simpl.
  repeat split; [lia|]. by apply rmapM_Forall2.
Qed.

Lemma dropna_sublist_length l1 l2 :
  l1 `sublist_of` l2 → (length (dropna l1) ≤ length (dropna l2))%nat.
Proof.
  unfold dropna. induction 1 as [|x l1 l2 _ IH|x l1 l2 _ IH];
    rewrite ?filter_cons; repeat case_decide; simpl; lia.
Qed.

Lemma window_valid_le window col i :
  (length (dropna (window_of window col i)) ≤ length (dropna col))%nat.
Proof.
  unfold window_of. destruct (window_bounds _ _ _) as [a b].
  apply dropna_sublist_length.
  etrans; [apply sublist_take|apply sublist_drop].
Qed.

Lemma rolling_col_sparse stat window minp col col' :
  (Z.of_nat (length (dropna col)) < minp) →
  rolling_col stat window minp col = Ok col' →
  col' = replicate (length col) F64.nan.
Proof.
  intros Hs Hr. unfold rolling_col in Hr.
  rewrite (rmapM_Ok _ (λ _, F64.nan)) in Hr.
  - injection Hr as <-.
    etrans; [apply (const_fmap (λ _ : nat, F64.nan) _ F64.nan); done|].
    by rewrite length_seq.
  - intros i _. simpl.
    pose proof (window_valid_le window col i).
    destruct (minp <=? _) eqn:E; [lia|done].
Qed.

Lemma dropna_replicate_nan n : dropna (replicate n F64.nan) = [].
Proof. apply dropna_nil_iff, Forall_replicate. done. Qed.

Lemma not_has_valid_replicate_nan n : ¬ has_valid (replicate n F64.nan).
Proof. intros (x & [-> _]%elem_of_replicate & Hx). done. Qed.

Lemma fill_replicate_nan n :
  ffill (bfill (replicate n F64.nan)) = replicate n F64.nan.
Proof.
  apply list_eq. intros i.
  destruct (decide (i < n)%nat) as [Hi|Hi].
  - rewrite ffill_bfill_lookup by (by rewrite length_replicate).
    rewrite filled_value_all_nan by apply not_has_valid_replicate_nan.
    by rewrite lookup_replicate_2.
  - rewrite !lookup_ge_None_2; [done| |];
      rewrite ?ffill_length, ?bfill_length, length_replicate; lia.
Qed.

Lemma median_replicate_nan n : median (replicate n F64.nan) = F64.nan.
Proof. unfold median. by rewrite dropna_replicate_nan. Qed.

Section rolling_baselines.
Context `{Stats}.
Import BaselineComputer.

Lemma min_periods_inv (self : t) window minp :
  min_periods self window = Ok minp → 3 <= minp.
Proof.
  unfold min_periods. intros (c & _ & [= <-])%rbind_Ok_inv. lia.
Qed.

Lemma rolling_modes_inv (self : t) df F0 f0 :
  rolling_mode (mode self) →
  compute self df = Ok (F0, f0) →
  ∃ stat minp base,
    3 <= rolling_window self
    ∧ min_periods self (rolling_window self) = Ok minp
    ∧ rolling stat (rolling_window self) minp df = Ok base
    ∧ F0 = fill_edges base
    ∧ f0 = df_median F0.
Proof.
  intros Hm. unfold compute.
  repeat case_decide; try (destruct Hm as [?|[?|?]]; congruence).
  - unfold baseline_rolling_median.
    intros ([] & Hv%validate_positive_inv & Hb)%rbind_Ok_inv.
    apply rbind_Ok_inv in Hb as (minp & Hminp & Hb).
    apply rbind_Ok_inv in Hb as (base & Hbase & [= <- <-]).
    eauto 10.
  - unfold baseline_rolling_percentile, _rolling_apply_quantile.
    intros (base' & Hb & [= <- <-])%rbind_Ok_inv.
    apply rbind_Ok_inv in Hb as ([] & Hv%validate_positive_inv & Hb).
    apply rbind_Ok_inv in Hb as (minp & Hminp & Hb).
    apply rbind_Ok_inv in Hb as (base & Hbase & [= <-]).
    eauto 10.
  - unfold baseline_rolling_mean.
    intros ([] & Hv%validate_positive_inv & Hb)%rbind_Ok_inv.
    apply rbind_Ok_inv in Hb as (minp & Hminp & Hb).
    apply rbind_Ok_inv in Hb as (base & Hbase & [= <- <-]).
    eauto 10.
Qed.

(** In every rolling mode a column of the baseline table is either free
    of missing cells or entirely missing, and the representative vector holds
    the medians of the baseline table's columns. *)
Lemma rolling_baseline_all_or_nothing (self : t) (df F0 : DataFrame) (f0 : Series) :
  rolling_mode (mode self) →
  compute self df = Ok (F0, f0) →
  f0 = df_median F0
  ∧ ∀ j col, df_data F0 !! j = Some col →
      (∀ i x, col !! i = Some x → F64.isnan x = false)
      ∨ (∀ i x, col !! i = Some x → F64.isnan x = true).
Proof.
  intros Hm Hc.
  destruct (rolling_modes_inv _ _ _ _ Hm Hc) as (stat & minp & base & _ & _ & _ & -> & ->).
  split; [done|]. intros j col Hj. simpl in Hj.
  rewrite list_lookup_fmap in Hj.
  destruct (df_data base !! j) as [bcol|]; [|done].
  injection Hj as <-.
  assert (∀ i x, ffill (bfill bcol) !! i = Some x → x = filled_value bcol i) as Hf.
  { intros i x Hi. pose proof (lookup_lt_Some _ _ _ Hi) as Hlt.
    rewrite ffill_length, bfill_length in Hlt.
    rewrite ffill_bfill_lookup in Hi by done. congruence. }
  destruct (classic_has_valid bcol) as [Hv|Hv].
  - left. intros i x ->%Hf. by apply filled_value_elem.
  - right. intros i x ->%Hf. by rewrite filled_value_all_nan.
Qed.

(** A channel with fewer than three valid cells gets an entirely missing
    rolling baseline. *)
Lemma rolling_baseline_sparse_channel (self : t) (df F0 : DataFrame) (f0 : Series)
    (j : nat) (col : list float) :
  rolling_mode (mode self) →
  compute self df = Ok (F0, f0) →
  df_data df !! j = Some col →
  (length (dropna col) < 3)%nat →
  df_data F0 !! j = Some (replicate (length col) F64.nan)
  ∧ s_values f0 !! j = Some F64.nan.
Proof.
  intros Hm Hc Hj Hs.
  destruct (rolling_modes_inv _ _ _ _ Hm Hc)
    as (stat & minp & base & _ & Hminp%min_periods_inv & Hr & -> & ->).
  apply rolling_inv in Hr as (_ & _ & _ & H2).
  destruct (Forall2_lookup_l _ _ _ _ _ H2 Hj) as (bcol & Hb & Hcol).
  apply rolling_col_sparse in Hcol; [|lia]. subst bcol.
  assert (df_data (fill_edges base) !! j = Some (replicate (length col) F64.nan)) as HF.
  { simpl. rewrite list_lookup_fmap, Hb. simpl. by rewrite fill_replicate_nan. }
  split; [done|].
  simpl. rewrite list_lookup_fmap.
  simpl in HF. rewrite HF. simpl. by rewrite median_replicate_nan.
Qed.

End rolling_baselines.

(** ** The temporary fill of the filter *)

Lemma forallb_isnan_no_valid col :
  forallb F64.isnan col = true → ¬ has_valid col.
Proof.
  intros Hf (x & Hx & Hv).
  rewrite forallb_forall in Hf. apply list_elem_of_In, Hf in Hx. congruence.
Qed.

Lemma fill_column_lookup col i :
  (i < length col)%nat →
  FilterApplier.fill_column col !! i = Some (filled_value col i).
Proof.
  intros Hi. unfold FilterApplier.fill_column.
  destruct (forallb F64.isnan col) eqn:Ha; [|by apply ffill_bfill_lookup].
  destruct (lookup_lt_is_Some_2 col i Hi) as [x Hx]. rewrite Hx. f_equal.
  rewrite filled_value_all_nan by by apply forallb_isnan_no_valid.
  rewrite forallb_forall in Ha. apply isnan_true, Ha, list_elem_of_In.
  by eapply list_elem_of_lookup_2.
Qed.

(** The table handed to the smoother: a missing cell holds the first
    valid cell below it in its column, or else the last valid cell above it;
    a valid cell is kept. A column with a valid cell reaches the smoother
    without any missing cell, and holds only values of the input column; a
    column without one is handed over as it is. *)
Lemma filter_fill_next_or_previous_valid (df : DataFrame) (i j : nat)
    (col : list float) (x : float) :
  df_data df !! j = Some col →
  col !! i = Some x →
  cell (FilterApplier.fill_missing df) i j = Some (filled_value col i)
  ∧ (F64.isnan x = false → filled_value col i = x)
  ∧ (has_valid col →
     filled_value col i ∈ col ∧ F64.isnan (filled_value col i) = false)
  ∧ (¬ has_valid col → filled_value col i = x).
Proof.
  intros Hj Hx. repeat split.
  - unfold cell, FilterApplier.fill_missing. simpl.
    rewrite list_lookup_fmap, Hj. simpl.
    apply fill_column_lookup. by eapply lookup_lt_Some.
  - by apply filled_value_keeps.
  - by apply filled_value_elem.
  - by apply filled_value_elem.
  - intros Hn. rewrite filled_value_all_nan by done.
    destruct (F64.isnan x) eqn:E; [symmetry; by apply isnan_true|].
    destruct Hn. exists x. split; [|done]. by eapply list_elem_of_lookup_2.
Qed.

(** ** The global baselines *)

Section global_baselines.
Context `{Stats}.
Import BaselineComputer.

Lemma compute_global_median (self : t) df :
  mode self = "global_median" → compute self df = baseline_global_median self df.
Proof. intros Hm. unfold compute. rewrite Hm. by repeat case_decide. Qed.

Lemma compute_global_percentile (self : t) df :
  mode self = "global_percentile" → compute self df = baseline_global_percentile self df.
Proof. intros Hm. unfold compute. rewrite Hm. by repeat case_decide. Qed.

(** In mode [global_median] [compute] returns for every table, whatever
    the stimulus frame, the windows and the percentiles are: the vector holds
    the median of each channel over all rows, and every row of the baseline
    table carries it. *)
Lemma global_median_broadcast (self : t) (df : DataFrame) :
  wf_df df →
  mode self = "global_median" →
  ∃ F0 f0,
    compute self df = Ok (F0, f0)
    ∧ same_labels F0 df
    ∧ s_index f0 = df_columns df
    ∧ ∀ j col, df_data df !! j = Some col →
        s_values f0 !! j = Some (median col)
        ∧ ∀ i, (i < len df)%nat → cell F0 i j = Some (median col).
Proof.
  intros Hwf Hm. rewrite compute_global_median by done.
  unfold baseline_global_median.
  rewrite broadcast_Ok by (done || apply df_median_length). simpl.
  eexists _, _. split; [done|]. split; [done|]. split; [done|].
  intros j col Hj.
  assert (map median (df_data df) !! j = Some (median col)) as Hmed
    by (by rewrite list_lookup_fmap, Hj).
  split; [done|]. intros i Hi. by apply cell_broadcast.
Qed.

(** In mode [global_percentile] [compute] raises exactly when the
    percentile is not within [0, 100] (NaN included), whatever the table;
    otherwise every row of the baseline table carries the channel's
    quantile at [q / 100]. *)
Lemma global_percentile_validation (self : t) (df : DataFrame) :
  wf_df df →
  mode self = "global_percentile" →
  let q := global_percentile_q self in
  ((∃ e, compute self df = Raise e)
   ↔ ¬ (F64.leb F64.zero q = true ∧ F64.leb q F64.lit_100 = true))
  ∧ (∀ e, compute self df = Raise e →
       e = ValueError "GLOBAL_PERCENTILE_Q must be in [0,100]")
  ∧ (q = F64.nan → ∃ e, compute self df = Raise e)
  ∧ (∀ F0 f0, compute self df = Ok (F0, f0) →
       same_labels F0 df
       ∧ s_index f0 = df_columns df
       ∧ ∀ j col, df_data df !! j = Some col →
           let v := pd_quantile col (F64.div q F64.lit_100) in
           s_values f0 !! j = Some v
           ∧ ∀ i, (i < len df)%nat → cell F0 i j = Some v).
Proof.
  intros Hwf Hm. cbv zeta. rewrite compute_global_percentile by done.
  unfold baseline_global_percentile.
  generalize (global_percentile_q self). intros q.
  destruct (F64.leb F64.zero q) eqn:E0; destruct (F64.leb q F64.lit_100) eqn:E1; simpl;
    try (split; [split; [intros _ [? ?]; discriminate|eauto]
                |split; [by intros e [= <-]|split; [eauto|done]]]).
  rewrite broadcast_Ok by (done || (simpl; by rewrite length_map)). simpl.
  split; [split; [by intros [e ?]|intros []; done]|].
  split; [done|]. split; [intros ->; done|].
  intros F0 f0 [= <- <-]. split; [done|]. split; [done|].
  intros j col Hj. simpl.
  assert (map (λ col, pd_quantile col (F64.div q F64.lit_100)) (df_data df) !! j
          = Some (pd_quantile col (F64.div q F64.lit_100))) as Hq
    by (by rewrite list_lookup_fmap, Hj).
  split; [done|]. intros i Hi. by apply cell_broadcast.
Qed.

End global_baselines.

(** ** FilterApplier: degenerate tables *)

Lemma savgol_effective_window_short n w :
  3 <= n <= 4 → savgol_effective_window n w = 3.
Proof.
  intros Hn. unfold savgol_effective_window.
  assert (n = 3 ∨ n = 4) as [-> | ->] by lia; simpl; lia.
Qed.

Section filter_edges.
Context `{Smoothers}.
Import FilterApplier.

Lemma apply_savgol_unfiltered (self : t) df :
  HAVE_SCIPY_SG = true → method self = "savgol" → (len df < 3)%nat →
  apply self df = Ok df.
Proof.
  intros Hsg Hm Hn. unfold apply. destruct (empty df); [done|].
  rewrite Hm. rewrite decide_False by done. rewrite decide_True by done.
  unfold _apply_savgol. rewrite Hsg. simpl.
  change (len (fill_missing (_to_float_df df))) with (len df).
  destruct (Z.ltb_spec (Z.of_nat (len df)) 3); [|lia]. simpl.
  by rewrite restore_filled.
Qed.

Lemma apply_savgol_refused (self : t) df :
  HAVE_SCIPY_SG = true → method self = "savgol" → empty df = false →
  3 <= Z.of_nat (len df) →
  savgol_effective_window (Z.of_nat (len df)) (savgol_window self) < savgol_poly self + 2 →
  ∃ msg, apply self df = Raise (ValueError msg).
Proof.
  intros Hsg Hm He Hn Hw. unfold apply. rewrite He.
  rewrite Hm. rewrite decide_False by done. rewrite decide_True by done.
  unfold _apply_savgol. rewrite Hsg. simpl.
  change (len (fill_missing (_to_float_df df))) with (len df).
  destruct (Z.ltb_spec (Z.of_nat (len df)) 3); [lia|].
  destruct (_ <=? savgol_poly self); [simpl; eauto|].
  destruct (Z.ltb_spec (savgol_effective_window (Z.of_nat (len df)) (savgol_window self))
              (savgol_poly self + 2)); [simpl; eauto|lia].
Qed.

(** What [apply] does with tables too small to filter. An empty table is
    returned as it is, for every method name and without SciPy. On any other
    table an unknown method raises ValueError, and Savitzky-Golay without
    SciPy raises ImportError. With SciPy, a table of one or two rows comes
    back unchanged from Savitzky-Golay. *)
Lemma filter_apply_degenerate_tables (self : t) (df : DataFrame) :
  (empty df = true → apply self df = Ok df)
  ∧ (empty df = false → method self ≠ "gaussian" → method self ≠ "savgol" →
     apply self df = Raise (ValueError "FILTER_METHOD must be 'gaussian' or 'savgol'"))
  ∧ (empty df = false → method self = "savgol" → HAVE_SCIPY_SG = false →
     ∃ msg, apply self df = Raise (ImportError msg))
  ∧ (method self = "savgol" → HAVE_SCIPY_SG = true → (len df < 3)%nat →
     apply self df = Ok df).
Proof.
  repeat split.
  - intros He. unfold apply. by rewrite He.
  - intros He Hg Hs. unfold apply. rewrite He.
    by rewrite !decide_False.
  - intros He Hm Hsg. unfold apply. rewrite He, Hm.
    rewrite decide_False by done. rewrite decide_True by done.
    unfold _apply_savgol. rewrite Hsg. simpl. eauto.
  - intros Hm Hsg Hn. by apply apply_savgol_unfiltered.
Qed.

(** Savitzky-Golay on a table of three or four rows: the effective window
    is 3 whatever window is configured, so every polynomial order of 2 or
    more is refused with a ValueError; the default order 3 in particular. In
    general the call is refused whenever the effective window is below
    [savgol_poly + 2]. *)
Lemma savgol_refuses_short_tables (self : t) (df : DataFrame) :
  HAVE_SCIPY_SG = true →
  method self = "savgol" →
  empty df = false →
  let n := Z.of_nat (len df) in
  (3 <= n <= 4 → savgol_effective_window n (savgol_window self) = 3)
  ∧ (3 <= n <= 4 → 2 <= savgol_poly self →
     ∃ msg, apply self df = Raise (ValueError msg))
  ∧ (3 <= n → savgol_effective_window n (savgol_window self) < savgol_poly self + 2 →
     ∃ msg, apply self df = Raise (ValueError msg)).
Proof.
  intros Hsg Hm He n. repeat split.
  - apply savgol_effective_window_short.
  - intros Hn Hp. apply apply_savgol_refused; try done; [lia|].
    fold n. rewrite savgol_effective_window_short by done. lia.
  - intros Hn Hw. by apply apply_savgol_refused.
Qed.

End filter_edges.

(** ** Normalizer: a missing sample, and infinities *)

Lemma sub_nan_l y : F64.sub F64.nan y = F64.nan.
Proof. by destruct y. Qed.

Lemma div_nan_l y : F64.div F64.nan y = F64.nan.
Proof. by destruct y. Qed.

Lemma mul_nan_l y : F64.mul F64.nan y = F64.nan.
Proof. by destruct y. Qed.

Lemma subtract_inv df baseline out :
  subtract df baseline = Ok out → out = df_binop F64.sub df baseline.
Proof.
  unfold subtract, _to_float_df. destruct (df_columns df); [done|].
  simpl. by intros [= <-].
Qed.

Lemma finish_missing pct clip fill e :
  finish pct clip fill (F64.div (F64.sub F64.nan e) e)
  = match fill with
    | Some v => if clip then clip_lower F64.zero v else v
    | None => F64.nan
    end.
Proof.
  rewrite sub_nan_l, div_nan_l. unfold finish.
  destruct pct; rewrite ?mul_nan_l; by destruct fill, clip.
Qed.

Lemma dff_missing_sample df baseline eps pct clip fill out r c b :
  at_ df r c = Some F64.nan →
  base_at baseline r c = Some b →
  deltaF_over_F df baseline eps pct clip fill = Ok out →
  at_ out r c = Some (match fill with
                      | Some v => if clip then clip_lower F64.zero v else v
                      | None => F64.nan
                      end).
Proof.
  intros Hs Hb ->%deltaF_over_F_inv.
  erewrite at_dff_table by done. by rewrite finish_missing.
Qed.

(** A missing sample of the signal stays missing under [subtract], but
    [deltaF_over_F] fills it like any missing quotient: with the default
    options the cell reads 0.0. *)
Lemma missing_sample_is_filled (df : DataFrame) (baseline : BaseLike) (eps : float)
    (as_percent clip_negatives : bool) (fillna_value : option float)
    (r : Z) (c : string) (b : float) :
  at_ df r c = Some F64.nan →
  base_at baseline r c = Some b →
  (∀ out, subtract df baseline = Ok out → at_ out r c = Some F64.nan)
  ∧ (∀ out, deltaF_over_F df baseline eps as_percent clip_negatives fillna_value = Ok out →
       at_ out r c = Some (match fillna_value with
                           | Some v => if clip_negatives then clip_lower F64.zero v else v
                           | None => F64.nan
                           end))
  ∧ (∀ out, deltaF_over_F df baseline eps_default false false fillna_default = Ok out →
       at_ out r c = Some F64.zero).
Proof.
  intros Hs Hb. split; [|split].
  - intros out ->%subtract_inv.
    erewrite at_df_binop by done. by rewrite sub_nan_l.
  - intros out. by apply (dff_missing_sample _ _ _ _ _ _ _ _ _ b).
  - intros out Hout. by rewrite (dff_missing_sample _ _ _ _ _ _ _ _ _ _ Hs Hb Hout).
Qed.

Lemma cell_dff_table df baseline eps pct clip fill i j x :
  cell (dff_table df baseline eps pct clip fill) i j = Some x →
  ∃ y, x = (λ q, let q := replace_inf q in
                 let q := match fill with Some v => fillna v q | None => q end in
                 if clip then clip_lower F64.zero q else q) y.
Proof.
  unfold dff_table.
  destruct clip, fill as [v|]; rewrite !cell_df_map;
    match goal with |- context [cell ?d i j] => destruct (cell d i j) as [y|] end;
    simpl; intros [= <-]; by exists y.
Qed.

(** [deltaF_over_F] never returns an infinite cell unless the fill value
    is itself infinite: without a fill value ([fillna_value=None]) an
    infinite quotient is still replaced, by NaN. With [clip_negatives] no
    cell is below zero. *)
Lemma deltaF_over_F_no_infinity (df out : DataFrame) (baseline : BaseLike) (eps : float)
    (as_percent clip_negatives : bool) (fillna_value : option float) :
  deltaF_over_F df baseline eps as_percent clip_negatives fillna_value = Ok out →
  ∀ i j x, cell out i j = Some x →
    ((∀ v, fillna_value = Some v → F64.isinf v = false) → F64.isinf x = false)
    ∧ (fillna_value = None → F64.isinf x = false)
    ∧ (clip_negatives = true → F64.isnan x = true ∨ F64.geb x F64.zero = true).
Proof.
  intros ->%deltaF_over_F_inv i j x (y & ->)%cell_dff_table.
  cbv beta zeta. unfold clip_lower, fillna, replace_inf.
  repeat split.
  - intros Hv. destruct fillna_value as [v|].
    + specialize (Hv v eq_refl).
      destruct clip_negatives, y, v; try done; simpl;
        match goal with |- context [F64.geb ?a ?b] => by destruct (F64.geb a b) end.
    + destruct clip_negatives, y; try done; simpl;
        match goal with |- context [F64.geb ?a ?b] => by destruct (F64.geb a b) end.
  - intros ->. destruct clip_negatives, y; try done; simpl;
      match goal with |- context [F64.geb ?a ?b] => by destruct (F64.geb a b) end.
  - intros ->.
    match goal with |- context [F64.isnan ?a || F64.geb ?a ?b] =>
      destruct (F64.isnan a) eqn:E1; destruct (F64.geb a b) eqn:E2; simpl; rewrite ?E1, ?E2; auto
    end.
Qed.

(** ** Method names *)

Lemma ascii_lower_idemp c : ascii_lower (ascii_lower c) = ascii_lower c.
Proof. destruct c as [[] [] [] [] [] [] [] []]; reflexivity. Qed.

Lemma lower_idemp s : lower (lower s) = lower s.
Proof. induction s as [|c s IH]; simpl; [done|]. by rewrite ascii_lower_idemp, IH. Qed.

(** ** Cells by position and by label *)

Lemma at_cell df i j r c :
  NoDup (df_index df) → NoDup (df_columns df) →
  df_index df !! i = Some r → df_columns df !! j = Some c →
  at_ df r c = cell df i j.
Proof.
  intros Hi Hc Hr Hcl. unfold at_, column, cell.
  rewrite (get_loc_lookup _ _ _ Hc Hcl). simpl.
  destruct (df_data df !! j) as [col|]; simpl; [|done].
  by rewrite (get_loc_lookup _ _ _ Hi Hr).
Qed.

Lemma cell_labels df i j x :
  wf_df df → cell df i j = Some x →
  ∃ r c, df_index df !! i = Some r ∧ df_columns df !! j = Some c.
Proof.
  intros Hwf Hx. destruct (cell_bounds _ _ _ _ Hwf Hx) as [Hj Hi].
  destruct (lookup_lt_is_Some_2 (df_index df) i Hi) as [r Hr].
  destruct (lookup_lt_is_Some_2 (df_columns df) j Hj) as [c Hc].
  eauto.
Qed.

(** A cell of [df op b] for a table [b] that carries the labels of [df]. *)
Lemma cell_df_binop_frame op df b i j s t :
  wf_df df → same_labels b df →
  cell df i j = Some s → cell b i j = Some t →
  cell (df_binop op df (BaseFrame b)) i j = Some (op s t).
Proof.
  intros Hwf [Ei Ec] Hs Ht.
  destruct (cell_labels _ _ _ _ Hwf Hs) as (r & c & Hr & Hc).
  pose proof Hwf as (_ & _ & Hnc & Hni).
  assert (same_labels (df_binop op df (BaseFrame b)) df) as [Oi Oc]
    by (by apply df_binop_same_labels).
  rewrite <- (at_cell _ i j r c); rewrite ?Oi, ?Oc; try done.
  apply at_df_binop.
  - by rewrite (at_cell _ i j r c).
  - simpl. rewrite (at_cell _ i j r c); rewrite ?Ei, ?Ec; done.
Qed.

(** ** Centered windows of odd length *)





(** ** [Detrender] *)

Section detrender.
Context `{LinAlg}.
Import Detrender.

Lemma linear_detrend_inv (self : t) s s' :
  _linear_detrend self s = Ok s' →
  ∃ m b, np_linalg_lstsq (arange 0 (Z.of_nat (length s))) s = Ok (m, b)
         ∧ s' = zip_with (λ v xi, F64.sub v (F64.add (F64.mul m xi) b)) s
                  (arange 0 (Z.of_nat (length s))).
Proof.
  unfold _linear_detrend. intros ([m b] & Hl & [= <-])%rbind_Ok_inv. eauto.
Qed.

Lemma arange_length lo hi : length (arange lo hi) = Z.to_nat (hi - lo).
Proof. unfold arange. by rewrite length_map, length_seq. Qed.

Lemma arange_lookup lo hi (k : nat) :
  (k < Z.to_nat (hi - lo))%nat → arange lo hi !! k = Some (F64.of_Z (lo + Z.of_nat k)).
Proof.
  intros Hk. unfold arange. rewrite list_lookup_fmap, lookup_seq_lt by done. done.
Qed.

Lemma linear_detrend_length (self : t) s s' :
  _linear_detrend self s = Ok s' → length s' = length s.
Proof.
  intros (m & b & _ & ->)%linear_detrend_inv.
  rewrite length_zip_with, arange_length. lia.
Qed.

Lemma rolling_median_detrend_inv (self : t) df out :
  _rolling_median_detrend self df = Ok out →
  ∃ med, rolling (λ w, Ok (median w)) (rolling_window self) 1 df = Ok med
         ∧ out = df_binop F64.sub df (BaseFrame med).
Proof.
  unfold _rolling_median_detrend. intros (med & Hm & [= <-])%rbind_Ok_inv. eauto.
Qed.

Lemma detrend_labels (self : t) (df out : DataFrame) :
  wf_df df → apply self df = Ok out → same_labels out df ∧ wf_df out.
Proof.
  intros Hwf. unfold apply. repeat case_decide; try done.
  - by intros [= <-].
  - destruct (empty df); [by intros [= <-]|].
    intros (cols & Hc & [= <-])%rbind_Ok_inv. split; [done|].
    pose proof (rmapM_Forall2 _ _ _ Hc) as H2.
    destruct Hwf as (Hn & Hf & Hnc & Hni).
    repeat split; simpl; [|  |done|done].
    + by rewrite <- (Forall2_length _ _ _ H2).
    + clear Hn Hc. unfold len in *. simpl.
      induction H2 as [|col col' ? ? Hcol]; [constructor|].
      apply Forall_cons in Hf as [Hlen Hf]. constructor; [|auto].
      apply linear_detrend_length in Hcol. congruence.
  - destruct (_ || _); [done|].
    intros (med & Hmed & ->)%rolling_median_detrend_inv.
    destruct (rolling_labels _ _ _ _ _ Hwf Hmed) as [Hl Hw].
    assert (labels_match df (BaseFrame med)) as Hlm by (destruct Hl; by split).
    split; [by apply df_binop_same_labels|by apply df_binop_wf].
Qed.

(** The method name of [Detrender] is matched without regard to case.
    [none] returns the table as it is; a name outside [none], [linear],
    [rolling_median] raises ValueError on every table; and whenever [apply]
    returns, for any method, the result has the row and column labels of
    its input. *)
Lemma detrend_dispatch (self : t) (df : DataFrame) :
  apply (mk (lower (method self)) (rolling_window self)) df = apply self df
  ∧ (lower (method self) = "none" → apply self df = Ok df)
  ∧ (lower (method self) ≠ "none" → lower (method self) ≠ "linear" →
     lower (method self) ≠ "rolling_median" →
     apply self df
     = Raise (ValueError "DETREND_METHOD must be 'none','rolling_median','linear'"))
  ∧ (wf_df df → ∀ out, apply self df = Ok out → same_labels out df ∧ wf_df out).
Proof.
  split; [|split; [|split]].
  - unfold apply, _rolling_median_detrend. simpl. by rewrite lower_idemp.
  - intros Hm. unfold apply. by rewrite Hm.
  - intros H1 H2 H3. unfold apply. by rewrite !decide_False.
  - intros Hwf out. by apply detrend_labels.
Qed.


(** Linear detrending of a table with at least one row and one column
    fits each channel on its own against the frame positions 0, 1, 2, ...
    (not the row labels) and subtracts the fitted line [m * i + b] from the
    sample of row [i]. A table with no row or no column is returned as it is,
    without any fit. *)
Lemma detrend_linear_cells (self : t) (df : DataFrame) :
  lower (method self) = "linear" →
  (empty df = true → apply self df = Ok df)
  ∧ (empty df = false → ∀ out, apply self df = Ok out →
       ∀ j col, df_data df !! j = Some col →
         ∃ m b, np_linalg_lstsq (arange 0 (Z.of_nat (length col))) col = Ok (m, b)
                ∧ ∀ i s, col !! i = Some s →
                    cell out i j
                    = Some (F64.sub s (F64.add (F64.mul m (F64.of_Z (Z.of_nat i))) b))).
Proof.
  intros Hm.
  assert (apply self df
          = if empty df then Ok df
            else cols ←r rmapM (_linear_detrend self) (df_data df);
                 Ok (mkDataFrame (df_index df) (df_columns df) cols)) as ->.
  { unfold apply. rewrite Hm. by repeat case_decide. }
  split; [by intros ->|]. intros ->.
  intros out (cols & Hc & [= <-])%rbind_Ok_inv j col Hj.
  apply rmapM_Forall2 in Hc.
  destruct (Forall2_lookup_l _ _ _ _ _ Hc Hj) as (col' & Hj' & Hcol).
  apply linear_detrend_inv in Hcol as (m & b & Hl & ->).
  exists m, b. split; [done|]. intros i s Hs.
  unfold cell. simpl. rewrite Hj'. simpl.
  rewrite lookup_zip_with, Hs. simpl.
  rewrite arange_lookup; [simpl; by rewrite Z.add_0_l|].
  apply lookup_lt_Some in Hs. lia.
Qed.

End detrender.

(** ** Channel names *)

Lemma str_Z_inj n m : str_Z n = str_Z m → n = m.
Proof.
  unfold str_Z. intros E.
  assert (∀ z, NilZero.int_of_string (NilZero.string_of_int (Z.to_int z))
               = Some (Z.to_int z)) as Hisi.
  { intros z. apply NilZero.isi; destruct z; simpl; try done;
      intros [= Hp]; by apply DecimalPos.Unsigned.to_uint_nonnil in Hp. }
  apply DecimalZ.to_int_inj.
  pose proof (Hisi n) as Hn. rewrite E, Hisi in Hn. congruence.
Qed.

Lemma roi_names_length k : length (roi_names k) = k.
Proof. unfold roi_names. by rewrite length_map, length_seq. Qed.

Lemma roi_names_lookup k j :
  (j < k)%nat → roi_names k !! j = Some ("ROI_" ++ str_Z (Z.of_nat j + 1)).
Proof.
  intros Hj. unfold roi_names. rewrite list_lookup_fmap, lookup_seq_lt by done. done.
Qed.

Lemma roi_names_NoDup k : NoDup (roi_names k).
Proof.
  unfold roi_names. apply (NoDup_fmap_2_strong _ (seq 0 k)); [|apply NoDup_seq].
  intros i j _ _ E. injection E as E. apply str_Z_inj in E. lia.
Qed.

(** ** [SignalLoader] *)

Lemma select_rows_lookup {A} (keep : list nat) (l : list A) k :
  Forall (λ i, (i < length l)%nat) keep →
  select_rows keep l !! k = keep !! k ≫= λ i, l !! i.
Proof.
  unfold select_rows. intros Hk. revert k.
  induction Hk as [|i keep Hi _ IH]; intros k; simpl; [done|].
  destruct (lookup_lt_is_Some_2 l i Hi) as [x Hx]. rewrite Hx.
  destruct k as [|k]; simpl; [done|]. apply IH.
Qed.

Lemma select_rows_length {A} (keep : list nat) (l : list A) :
  Forall (λ i, (i < length l)%nat) keep → length (select_rows keep l) = length keep.
Proof.
  unfold select_rows. induction 1 as [|i keep Hi _ IH]; simpl; [done|].
  destruct (lookup_lt_is_Some_2 l i Hi) as [x Hx]. rewrite Hx. simpl. f_equal. exact IH.
Qed.

Lemma kept_rows_bound df : Forall (λ i, (i < len df)%nat) (kept_rows df).
Proof.
  unfold kept_rows. apply Forall_forall.
  intros i [_ Hi%elem_of_seq]%list_elem_of_filter. lia.
Qed.

Lemma kept_rows_valid df i :
  i ∈ kept_rows df →
  ∃ j col x, df_data df !! j = Some col ∧ col !! i = Some x ∧ F64.isnan x = false.
Proof.
  unfold kept_rows. intros [Hr _]%list_elem_of_filter. unfold row_all_nan in Hr.
  induction (df_data df) as [|col cols IH]; simpl in Hr; [done|].
  destruct (F64.isnan (default F64.nan (col !! i))) eqn:E; simpl in Hr.
  - destruct (IH Hr) as (j & col' & x & ? & ? & ?). by exists (S j), col', x.
  - exists 0%nat, col. destruct (col !! i) as [x|]; [|done]. by exists x.
Qed.



Lemma slice_from_lookup {A} (d : Z) (l : list A) (i : nat) :
  0 <= d → slice d (Z.of_nat (length l)) l !! i = l !! (i + Z.to_nat d)%nat.
Proof.
  intros Hd. unfold slice, slice_bound.
  destruct (Z.ltb_spec d 0); [lia|].
  destruct (Z.ltb_spec (Z.of_nat (length l)) 0); [lia|].
  rewrite Z.min_id, Nat2Z.id.
  rewrite take_ge by (rewrite length_drop; lia).
  rewrite lookup_drop.
  destruct (Z.le_ge_cases d (Z.of_nat (length l))).
  - rewrite Z.min_l by lia. f_equal. lia.
  - rewrite Z.min_r by lia. rewrite Nat2Z.id.
    rewrite !lookup_ge_None_2; [done|lia|lia].
Qed.

Lemma slice_from_length {A} (d : Z) (l : list A) :
  0 <= d → length (slice d (Z.of_nat (length l)) l) = (length l - Z.to_nat d)%nat.
Proof.
  intros Hd. unfold slice, slice_bound.
  destruct (Z.ltb_spec d 0); [lia|].
  destruct (Z.ltb_spec (Z.of_nat (length l)) 0); [lia|].
  rewrite Z.min_id, Nat2Z.id, length_take, length_drop. lia.
Qed.

Lemma len_dropna_all df : len (dropna_all df) = length (kept_rows df).
Proof. unfold len, dropna_all. simpl. apply select_rows_length, kept_rows_bound. Qed.

Lemma len_reset_index df : len (reset_index df) = len df.
Proof. unfold len, reset_index. simpl. by rewrite length_map, length_seq. Qed.

Lemma cell_dropna_all df i j :
  rectangular df →
  cell (dropna_all df) i j = kept_rows df !! i ≫= λ k, cell df k j.
Proof.
  intros [_ Hr]. unfold cell, dropna_all. simpl.
  rewrite list_lookup_fmap.
  destruct (df_data df !! j) as [col|] eqn:Hj; simpl.
  - rewrite select_rows_lookup; [done|].
    rewrite (Forall_lookup_1 _ _ _ _ Hr Hj). apply kept_rows_bound.
  - by destruct (kept_rows df !! i).
Qed.

Lemma rectangular_dropna_all df : rectangular df → rectangular (dropna_all df).
Proof.
  intros [Hn Hr]. split; simpl; [by rewrite length_map|].
  apply Forall_fmap. eapply Forall_impl; [exact Hr|].
  intros col Hc. simpl. rewrite len_dropna_all.
  apply select_rows_length. rewrite Hc. apply kept_rows_bound.
Qed.

Lemma NoDup_range n : NoDup (map Z.of_nat (seq 0 n)).
Proof. apply (NoDup_fmap_2 Z.of_nat), NoDup_seq. Qed.

Lemma wf_drop_frames d df :
  0 <= d → rectangular df → NoDup (df_columns df) → wf_df (drop_frames d df).
Proof.
  intros Hd [Hn Hr] Hc. unfold drop_frames, reset_index, iloc_rows, wf_df, len. simpl.
  repeat split; [by rewrite length_map| |done|apply NoDup_range].
  apply Forall_fmap. eapply Forall_impl; [exact Hr|].
  intros col Hcol. simpl. rewrite length_map, length_seq.
  unfold len in Hcol. rewrite <- Hcol at 1.
  by rewrite !slice_from_length, Hcol.
Qed.

Lemma len_drop_frames d df :
  0 <= d → len (drop_frames d df) = (len df - Z.to_nat d)%nat.
Proof.
  intros Hd. unfold drop_frames. rewrite len_reset_index.
  unfold len, iloc_rows. simpl. by apply slice_from_length.
Qed.

Lemma cell_drop_frames d df i j :
  0 <= d → rectangular df →
  cell (drop_frames d df) i j = cell df (i + Z.to_nat d) j.
Proof.
  intros Hd [_ Hr]. unfold cell, drop_frames, reset_index, iloc_rows. simpl.
  rewrite list_lookup_fmap.
  destruct (df_data df !! j) as [col|] eqn:Hj; simpl; [|done].
  pose proof (Forall_lookup_1 _ _ _ _ Hr Hj) as Hcol. simpl in Hcol.
  rewrite <- Hcol. by apply slice_from_lookup.
Qed.

Lemma df_index_drop_frames d df :
  df_index (drop_frames d df) = map Z.of_nat (seq 0 (len (iloc_rows d (Z.of_nat (len df)) df))).
Proof. done. Qed.

(** The table of [load] before any frame is dropped. *)
Lemma cleaned_wf (read : DataFrame) :
  rectangular read →
  let df := set_columns (roi_names (length (df_columns read))) (reset_index (dropna_all read)) in
  wf_df df ∧ rectangular df ∧ len df = length (kept_rows read)
  ∧ ∀ i j, cell df i j = kept_rows read !! i ≫= λ k, cell read k j.
Proof.
  intros Hrect. pose proof (rectangular_dropna_all _ Hrect) as [Hn Hr].
  assert (len (set_columns (roi_names (length (df_columns read)))
                 (reset_index (dropna_all read))) = length (kept_rows read)) as Hlen.
  { unfold len. simpl. rewrite length_map, length_seq. apply len_dropna_all. }
  assert (rectangular (set_columns (roi_names (length (df_columns read)))
                         (reset_index (dropna_all read)))) as Hrect'.
  { split; simpl.
    - rewrite roi_names_length. exact Hn.
    - eapply Forall_impl; [exact Hr|]. intros col Hc. simpl in *.
      rewrite Hc. unfold len at 2. simpl. by rewrite length_map, length_seq. }
  split; [|split; [done|split; [done|]]].
  - destruct Hrect' as [Hn' Hr'].
    repeat split; [done|done|apply roi_names_NoDup|apply NoDup_range].
  - intros i j. by rewrite <- cell_dropna_all.
Qed.

(** What [load] makes of the table it read. It raises, with a ValueError,
    exactly when [drop_first] is positive and not below the number of rows
    that hold at least one number; a zero or negative [drop_first] drops
    nothing. Otherwise the rows without any number are left out, the first
    [drop_first] of the remaining rows are dropped, the rows are numbered
    from 0 and the channels are named ROI_1, ROI_2, ... (all distinct): row
    [i] of the result is the row of the file at the [(i + drop_first)]-th
    kept position, and it holds at least one number. *)
Lemma load_table (drop_first : Z) (read : DataFrame) :
  rectangular read →
  let kept := kept_rows read in
  let d := Z.to_nat (Z.max 0 drop_first) in
  ((∃ e, SignalLoader.load drop_first read = Raise e)
   ↔ 0 < drop_first ∧ Z.of_nat (length kept) <= drop_first)
  ∧ (∀ e, SignalLoader.load drop_first read = Raise e →
       e = ValueError "Requested to drop more frames than available")
  ∧ (∀ out, SignalLoader.load drop_first read = Ok out →
       wf_df out
       ∧ df_index out = map Z.of_nat (seq 0 (length kept - d))
       ∧ df_columns out = roi_names (length (df_columns read))
       ∧ (∀ i j, cell out i j = kept !! (i + d)%nat ≫= λ k, cell read k j)
       ∧ (∀ i, (i < len out)%nat →
            ∃ k j x, kept !! (i + d)%nat = Some k
                     ∧ cell out i j = Some x ∧ F64.isnan x = false)).
Proof.
  intros Hrect kept d.
  destruct (cleaned_wf read Hrect) as (Hwf & Hrect' & Hlen & Hcell).
  unfold SignalLoader.load.
  set (df := set_columns _ _) in *. fold kept in Hlen, Hcell.
  assert (∀ out,
            (∀ i j, cell out i j = kept !! (i + d)%nat ≫= λ k, cell read k j) →
            len out = (length kept - d)%nat →
            ∀ i, (i < len out)%nat →
              ∃ k j x, kept !! (i + d)%nat = Some k
                       ∧ cell out i j = Some x ∧ F64.isnan x = false) as Hvalid.
  { intros out Hc Hl i Hi.
    destruct (lookup_lt_is_Some_2 kept (i + d)%nat) as [k Hk]; [lia|].
    destruct (kept_rows_valid read k) as (j & col & x & Hj & Hx & Hv).
    { by eapply list_elem_of_lookup_2. }
    exists k, j, x. split; [done|]. split; [|done].
    rewrite Hc, Hk. simpl. unfold cell. by rewrite Hj. }
  destruct (Z.ltb_spec 0 drop_first) as [Hpos|Hnonpos].
  - rewrite Hlen. destruct (Z.leb_spec (Z.of_nat (length kept)) drop_first) as [Hle|Hgt].
    + split; [split; [done|eauto]|]. split; [by intros e [= <-]|done].
    + split; [split; [by intros [e ?]|lia]|]. split; [done|].
      intros out [= <-].
      assert (d = Z.to_nat drop_first) as Hd by lia.
      assert (∀ i j, cell (drop_frames drop_first df) i j
                     = kept !! (i + d)%nat ≫= λ k, cell read k j) as Hc.
      { intros i j. rewrite cell_drop_frames by (done || lia). by rewrite Hcell, Hd. }
      assert (len (drop_frames drop_first df) = (length kept - d)%nat) as Hl.
      { rewrite len_drop_frames by lia. by rewrite Hlen, Hd. }
      split; [apply wf_drop_frames; [lia|done|by destruct Hwf as (_ & _ & ? & _)]|].
      split.
      { rewrite df_index_drop_frames.
        rewrite <- (len_reset_index (iloc_rows _ _ _)).
        fold (drop_frames drop_first df). by rewrite Hl. }
      split; [done|]. split; [done|]. by apply Hvalid.
  - split; [split; [by intros [e ?]|lia]|]. split; [done|].
    intros out [= <-].
    assert (d = 0%nat) as Hd by lia.
    assert (∀ i j, cell df i j = kept !! (i + d)%nat ≫= λ k, cell read k j) as Hc.
    { intros i j. by rewrite Hcell, Hd, Nat.add_0_r. }
    split; [done|]. split.
    { simpl. rewrite len_dropna_all. fold kept. do 2 f_equal. lia. }
    split; [done|]. split; [done|]. apply Hvalid; [done|lia].
Qed.

(** ** The stages of a run *)

Lemma load_Ok_wf drop_first read out :
  rectangular read →
  SignalLoader.load drop_first read = Ok out →
  wf_df out ∧ df_columns out = roi_names (length (df_columns read)).
Proof.
  intros Hrect. destruct (cleaned_wf read Hrect) as (Hwf & Hrect' & _ & _).
  unfold SignalLoader.load.
  destruct (Z.ltb_spec 0 drop_first); [|by intros [= <-]].
  destruct (_ <=? _); [done|]. intros [= <-]. split; [|done].
  apply wf_drop_frames; [lia|done|by destruct Hwf as (_ & _ & ? & _)].
Qed.

Lemma compute_f0_index `{Stats} (self : BaselineComputer.t) df F0 f0 :
  BaselineComputer.compute self df = Ok (F0, f0) → s_index f0 = df_columns df.
Proof.
  unfold BaselineComputer.compute. repeat case_decide; try done.
  - unfold BaselineComputer.baseline_pre_stim_median.
    intros (_ & _ & Hb)%rbind_Ok_inv.
    destruct (BaselineComputer.stim_frame self); [|done].
    by apply rbind_Ok_inv in Hb as (F & HF & [= <- <-]).
  - unfold BaselineComputer.baseline_global_median.
    by intros (F & HF & [= <- <-])%rbind_Ok_inv.
  - unfold BaselineComputer.baseline_global_percentile.
    destruct (negb _); [done|].
    by intros (F & HF & [= <- <-])%rbind_Ok_inv.
  - unfold BaselineComputer.baseline_rolling_median.
    intros (_ & _ & Hb)%rbind_Ok_inv.
    apply rbind_Ok_inv in Hb as (minp & _ & Hb).
    apply rbind_Ok_inv in Hb as (base & Hbase & [= <- <-]).
    by apply rolling_inv in Hbase as (_ & _ & ? & _).
  - unfold BaselineComputer.baseline_rolling_percentile, BaselineComputer._rolling_apply_quantile.
    intros (base' & Hb & [= <- <-])%rbind_Ok_inv.
    apply rbind_Ok_inv in Hb as (_ & _ & Hb).
    apply rbind_Ok_inv in Hb as (minp & _ & Hb).
    apply rbind_Ok_inv in Hb as (base & Hbase & [= <-]).
    by apply rolling_inv in Hbase as (_ & _ & ? & _).
  - unfold BaselineComputer.baseline_rolling_mean.
    intros (_ & _ & Hb)%rbind_Ok_inv.
    apply rbind_Ok_inv in Hb as (minp & _ & Hb).
    apply rbind_Ok_inv in Hb as (base & Hbase & [= <- <-]).
    by apply rolling_inv in Hbase as (_ & _ & ? & _).
Qed.

Lemma subtract_frame_labels df F0 out :
  wf_df df → same_labels F0 df →
  subtract df (BaseFrame F0) = Ok out → same_labels out df ∧ wf_df out.
Proof.
  intros Hwf [Ei Ec] ->%subtract_inv.
  split; [by apply df_binop_same_labels|by apply df_binop_wf].
Qed.

Lemma deltaF_over_F_frame_labels df F0 eps pct clip fill out :
  wf_df df → same_labels F0 df →
  deltaF_over_F df (BaseFrame F0) eps pct clip fill = Ok out →
  same_labels out df ∧ wf_df out.
Proof.
  intros Hwf [Ei Ec] ->%deltaF_over_F_inv. by apply dff_table_labels.
Qed.

Lemma filter_apply_labels `{Smoothers} (self : FilterApplier.t) df out :
  wf_df df → FilterApplier.apply self df = Ok out → same_labels out df.
Proof.
  intros Hwf. destruct (empty df) eqn:He.
  - unfold FilterApplier.apply. rewrite He. by intros [= <-].
  - rewrite apply_smoothed by done.
    intros (filtered & Hsm & [= <-])%rbind_Ok_inv.
    by destruct (smoothed_labels self df filtered Hwf Hsm) as [? _].
Qed.

Lemma restore_column_no_missing filtered col :
  length filtered = length col →
  Forall (λ x, F64.isnan x = false) col →
  restore_column filtered (map F64.isnan col) = filtered.
Proof.
  unfold restore_column. intros Hl Hv. revert filtered Hl.
  induction Hv as [|x col Hx _ IH]; intros [|y filtered] Hl; simpl in *; try done.
  rewrite Hx. f_equal. apply IH. lia.
Qed.

Lemma restore_no_missing filtered df :
  wf_df df → wf_df filtered → same_labels filtered df →
  (∀ i j x, cell df i j = Some x → F64.isnan x = false) →
  FilterApplier._restore_nans filtered (FilterApplier.isna df) = filtered.
Proof.
  intros (Hn & Hf & _) (Hn' & Hf' & _) [Ei Ec] Hv.
  destruct filtered as [fi fc fd], df as [di dc dd]. simpl in *. subst fi fc.
  unfold FilterApplier._restore_nans, FilterApplier.isna. simpl. f_equal.
  unfold len in *. simpl in *.
  assert (∀ j col, dd !! j = Some col → Forall (λ x, F64.isnan x = false) col) as Hcols.
  { intros j col Hj. apply Forall_lookup. intros i x Hx.
    apply (Hv i j). unfold cell. simpl. by rewrite Hj. }
  clear Hv. rewrite <- Hn in Hn'. clear Hn.
  revert dd Hn' Hf Hcols. induction Hf' as [|f fd Hfl _ IH]; intros [|d dd] Hl Hf Hc;
    simpl in *; try done.
  apply Forall_cons in Hf as [Hdl Hf].
  f_equal.
  - apply restore_column_no_missing; [congruence|]. by apply (Hc 0%nat).
  - apply IH; [lia|done|]. intros j col Hj. by apply (Hc (S j)).
Qed.

Lemma fill_missing_no_missing df :
  (∀ i j x, cell df i j = Some x → F64.isnan x = false) →
  FilterApplier.fill_missing df = df.
Proof.
  intros Hv. destruct df as [di dc dd]. unfold FilterApplier.fill_missing. simpl. f_equal.
  rewrite <- (list_fmap_id dd) at 2. apply list_fmap_ext. intros j col Hj. simpl.
  apply list_eq. intros i.
  destruct (col !! i) as [x|] eqn:Hx.
  - apply fill_column_keeps; [done|]. apply (Hv i j). unfold cell. simpl. by rewrite Hj.
  - apply lookup_ge_None in Hx. apply lookup_ge_None. by rewrite fill_column_length.
Qed.

Section detrend_missing.
Context `{LinAlg}.

Lemma linear_detrend_lookup (self : Detrender.t) col col' i s :
  Detrender._linear_detrend self col = Ok col' → col !! i = Some s →
  ∃ m b, col' !! i = Some (F64.sub s (F64.add (F64.mul m (F64.of_Z (Z.of_nat i))) b)).
Proof.
  intros (m & b & _ & ->)%linear_detrend_inv Hs. exists m, b.
  rewrite lookup_zip_with, Hs. simpl.
  rewrite arange_lookup; [simpl; by rewrite Z.add_0_l|].
  apply lookup_lt_Some in Hs. lia.
Qed.

Lemma detrend_missing_cell (self : Detrender.t) df out i j :
  wf_df df → Detrender.apply self df = Ok out →
  cell df i j = Some F64.nan → cell out i j = Some F64.nan.
Proof.
  intros Hwf. unfold Detrender.apply. repeat case_decide; try done.
  - by intros [= <-].
  - destruct (empty df); [by intros [= <-]|].
    intros (cols & Hc & [= <-])%rbind_Ok_inv Hx.
    apply cell_Some in Hx as (col & Hj & Hs).
    apply rmapM_Forall2 in Hc.
    destruct (Forall2_lookup_l _ _ _ _ _ Hc Hj) as (col' & Hj' & Hcol).
    destruct (linear_detrend_lookup _ _ _ _ _ Hcol Hs) as (m & b & Hl).
    unfold cell. simpl. rewrite Hj'. simpl. rewrite Hl. by rewrite sub_nan_l.
  - destruct (_ || _); [done|].
    intros (med & Hmed & ->)%rolling_median_detrend_inv Hx.
    destruct (rolling_labels _ _ _ _ _ Hwf Hmed) as [Hl Hwm].
    destruct (cell_bounds _ _ _ _ Hwf Hx) as [Hj Hi].
    destruct (cell_exists med i j Hwm) as [t Ht].
    { destruct Hl as [_ ->]. done. } { unfold len. destruct Hl as [-> _]. done. }
    erewrite cell_df_binop_frame by done. by rewrite sub_nan_l.
Qed.

End detrend_missing.

(** ** [run_pipeline] *)

Section pipeline.
Context {ST : Stats} {LA : LinAlg} {SM : Smoothers}.
Import Pipeline.

(** The objects that [run_pipeline] builds from its configuration. *)
Lemma run_pipeline_inv (cfg : config) (read : DataFrame) (t : tables) :
  run_pipeline cfg read = Ok t →
  let baseline :=
    BaselineComputer.mk (baseline_mode cfg) (stim_frame cfg) (pre_window cfg)
      (or_window (baseline_rolling_window cfg) (rolling_window cfg))
      (global_percentile_q cfg) (rolling_percentile_q cfg) roll_min_frac_default in
  let detrender :=
    Detrender.mk (detrend cfg) (or_window (detrend_rolling_window cfg) (rolling_window cfg)) in
  let filterer :=
    FilterApplier.init (Some (filter_method cfg)) (gaussian_sigma cfg)
      gauss_boundary_default (savgol_window cfg) (savgol_poly cfg) in
  SignalLoader.load (drop_first cfg) read = Ok (df_raw t)
  ∧ BaselineComputer.compute baseline (df_raw t) = Ok (F0_df t, f0_vec t)
  ∧ ∃ df_detr norm_df,
      Detrender.apply detrender (df_raw t) = Ok df_detr
      ∧ subtract df_detr (BaseFrame (F0_df t)) = Ok (sub_df t)
      ∧ deltaF_over_F df_detr (BaseFrame (F0_df t)) eps_default false false fillna_default
        = Ok (dff_df t)
      ∧ (lower (normalization_mode cfg) = "subtract" ∧ norm_df = sub_df t
         ∨ lower (normalization_mode cfg) = "dff" ∧ norm_df = dff_df t)
      ∧ FilterApplier.apply filterer norm_df = Ok (filter_df t).
Proof.
  unfold run_pipeline.
  intros (raw & Hload & Hrest)%rbind_Ok_inv.
  apply rbind_Ok_inv in Hrest as ([F0 f0] & Hbase & Hrest).
  apply rbind_Ok_inv in Hrest as (detr & Hdetr & Hrest).
  apply rbind_Ok_inv in Hrest as (sub & Hsub & Hrest).
  apply rbind_Ok_inv in Hrest as (dff & Hdff & Hrest).
  apply rbind_Ok_inv in Hrest as (norm & Hnorm & Hrest).
  apply rbind_Ok_inv in Hrest as (filt & Hfilt & [= <-]).
  cbn [df_raw F0_df f0_vec sub_df dff_df filter_df].
  split; [done|]. split; [done|]. exists detr, norm.
  split; [done|]. split; [done|]. split; [done|]. split; [|done].
  repeat case_decide; [left|right|done]; split; congruence.
Qed.

(** When a run goes through, the trimmed table is well formed with the
    channels named ROI_1, ROI_2, ..., and the baseline table, both
    normalized tables and the filtered table carry exactly its row and
    column labels; the baseline vector is indexed by its channel names. So
    looking up any of them by a channel of the raw table cannot fail. *)
Lemma run_pipeline_labels (cfg : config) (read : DataFrame) (t : tables) :
  rectangular read →
  run_pipeline cfg read = Ok t →
  wf_df (df_raw t)
  ∧ df_columns (df_raw t) = roi_names (length (df_columns read))
  ∧ same_labels (F0_df t) (df_raw t)
  ∧ s_index (f0_vec t) = df_columns (df_raw t)
  ∧ same_labels (sub_df t) (df_raw t)
  ∧ same_labels (dff_df t) (df_raw t)
  ∧ same_labels (filter_df t) (df_raw t).
Proof.
  intros Hrect (Hload & Hbase & detr & norm & Hdetr & Hsub & Hdff & Hnorm & Hfilt)%run_pipeline_inv.
  destruct (load_Ok_wf _ _ _ Hrect Hload) as [Hwf Hcols].
  destruct (compute_labels _ _ _ _ Hwf Hbase) as [HF0 HwF0].
  destruct (detrend_labels _ _ _ Hwf Hdetr) as [Hdl Hwd].
  assert (same_labels (F0_df t) detr) as HF0d.
  { destruct HF0, Hdl. split; congruence. }
  destruct (subtract_frame_labels _ _ _ Hwd HF0d Hsub) as [Hsl Hws].
  destruct (deltaF_over_F_frame_labels _ _ _ _ _ _ _ Hwd HF0d Hdff) as [Hfl Hwf'].
  split; [done|]. split; [done|]. split; [done|].
  split; [by eapply compute_f0_index|].
  pose proof (same_labels_trans _ _ _ Hsl Hdl) as Hs.
  pose proof (same_labels_trans _ _ _ Hfl Hdl) as Hf.
  split; [done|]. split; [done|].
  destruct Hnorm as [[_ ->]|[_ ->]].
  - exact (same_labels_trans _ _ _ (filter_apply_labels _ _ _ Hws Hfilt) Hs).
  - exact (same_labels_trans _ _ _ (filter_apply_labels _ _ _ Hwf' Hfilt) Hf).
Qed.

(** In the ΔF/F mode of [run_pipeline] the table handed to the filter has
    no missing and no infinite cell: a sample that is missing in the raw
    table reads 0.0 there, whatever detrending is configured. The filter
    therefore fills nothing and masks nothing, and the filtered table is
    what the smoother returns for the ΔF/F table itself. *)
Lemma run_pipeline_dff_has_no_missing (cfg : config) (read : DataFrame) (t : tables) :
  rectangular read →
  lower (normalization_mode cfg) = "dff" →
  run_pipeline cfg read = Ok t →
  let filterer :=
    FilterApplier.init (Some (filter_method cfg)) (gaussian_sigma cfg)
      gauss_boundary_default (savgol_window cfg) (savgol_poly cfg) in
  (∀ i j x, cell (dff_df t) i j = Some x → F64.isfinite x = true)
  ∧ (∀ i j, cell (df_raw t) i j = Some F64.nan → cell (dff_df t) i j = Some F64.zero)
  ∧ FilterApplier.fill_missing (dff_df t) = dff_df t
  ∧ (empty (dff_df t) = false →
     FilterApplier.smoothed filterer (dff_df t) = Ok (filter_df t)).
Proof.
  intros Hrect Hmode
    (Hload & Hbase & detr & norm & Hdetr & Hsub & Hdff & Hnorm & Hfilt)%run_pipeline_inv
    filterer.
  destruct Hnorm as [[Hs _]|[_ ->]]; [congruence|].
  destruct (load_Ok_wf _ _ _ Hrect Hload) as [Hwf Hcols].
  destruct (compute_labels _ _ _ _ Hwf Hbase) as [HF0 HwF0].
  destruct (detrend_labels _ _ _ Hwf Hdetr) as [Hdl Hwd].
  assert (same_labels (F0_df t) detr) as HF0d.
  { destruct HF0, Hdl. split; congruence. }
  destruct (deltaF_over_F_frame_labels _ _ _ _ _ _ _ Hwd HF0d Hdff) as [Hfl Hwf'].
  assert (∀ i j x, cell (dff_df t) i j = Some x → F64.isfinite x = true) as Hfin.
  { pose proof Hdff as ->%deltaF_over_F_inv. intros i j x.
    by apply dff_table_finite. }
  assert (∀ i j x, cell (dff_df t) i j = Some x → F64.isnan x = false) as Hval.
  { intros i j x Hx%Hfin. by destruct x. }
  split; [done|]. split; [|split; [by apply fill_missing_no_missing|]].
  - intros i j Hx.
    pose proof (detrend_missing_cell _ _ _ _ _ Hwf Hdetr Hx) as Hd.
    destruct (cell_labels _ _ _ _ Hwd Hd) as (r & c & Hr & Hc).
    pose proof Hwd as (_ & _ & Hnc & Hni).
    pose proof Hwf' as (_ & _ & Hnc' & Hni').
    destruct Hfl as [Ei Ec]. destruct HF0d as [Fi Fc].
    pose proof HwF0 as (_ & _ & HncF & HniF).
    destruct (cell_exists (F0_df t) i j HwF0) as [b Hb].
    { rewrite Fc. by eapply lookup_lt_Some. }
    { unfold len. rewrite Fi. by eapply lookup_lt_Some. }
    rewrite <- (at_cell _ i j r c); rewrite ?Ei, ?Ec; try done.
    assert (at_ detr r c = Some F64.nan) as Hd' by (by rewrite (at_cell _ i j r c)).
    assert (base_at (BaseFrame (F0_df t)) r c = Some b) as Hb'.
    { simpl. rewrite (at_cell _ i j r c); rewrite ?Fi, ?Fc; done. }
    exact (dff_missing_sample _ _ _ _ _ _ _ _ _ _ Hd' Hb' Hdff).
  - intros He. fold filterer in Hfilt.
    rewrite apply_smoothed in Hfilt by done.
    apply rbind_Ok_inv in Hfilt as (filtered & Hsm & [= Hout]).
    destruct (smoothed_labels _ _ _ Hwf' Hsm) as [Hsl Hws].
    rewrite restore_no_missing in Hout by done. by subst.
Qed.

End pipeline.

(** ** The two entry points *)





Section entry_points.
Context {ST : Stats} {LA : LinAlg} {SM : Smoothers}.
Import Pipeline.



(** A [drop_first] that is positive and not below the number of rows of
    the file: [run_pipeline] stops in the loader with "Requested to drop
    more frames than available", while [/process/roi] trims the table to no
    row at all and, with the pre-stimulus baseline, fails on the stimulus
    frame instead. *)
Lemma drop_beyond_the_file (p : params) (read : DataFrame) :
  rectangular read →
  0 < default 10 (p_drop_first p) →
  Z.of_nat (len read) <= default 10 (p_drop_first p) →
  run_pipeline (merge p) read
  = Raise (ValueError "Requested to drop more frames than available")
  ∧ (default "pre_stim_median" (p_baseline_mode p) = "pre_stim_median" →
     process_roi p read
     = Raise (ValueError ("STIM_FRAME=" ++ str_Z (default 44 (p_stim_frame p))
                          ++ " out of range [1..0] after trimming"))).
Proof.
  intros Hrect Hpos Hle. split.
  - unfold run_pipeline.
    assert (SignalLoader.load (drop_first (merge p)) read
            = Raise (ValueError "Requested to drop more frames than available")) as ->; [|done].
    unfold SignalLoader.load.
    change (drop_first (merge p)) with (default 10 (p_drop_first p)).
    destruct (Z.ltb_spec 0 (default 10 (p_drop_first p))); [|lia].
    destruct (Z.leb_spec (Z.of_nat (len (set_columns
                (roi_names (length (df_columns (reset_index (dropna_all read)))))
                (reset_index (dropna_all read))))) (default 10 (p_drop_first p))) as [|Hgt];
      [done|].
    exfalso. revert Hgt.
    change (len (set_columns ?n ?d)) with (len d).
    rewrite len_reset_index, len_dropna_all.
    pose proof (length_filter (λ i, row_all_nan read i = false) (seq 0 (len read))) as Hk.
    rewrite length_seq in Hk. unfold kept_rows. lia.
  - intros Hmode. unfold process_roi. cbv zeta. rewrite Hmode.
    destruct (Z.ltb_spec 0 (default 10 (p_drop_first p))); [|lia].
    unfold BaselineComputer.compute. cbn [BaselineComputer.mode].
    rewrite decide_True by done.
    unfold BaselineComputer.baseline_pre_stim_median,
      BaselineComputer._validate_stim_and_window.
    cbn [BaselineComputer.stim_frame].
    rewrite len_drop_frames by lia.
    change (len (set_columns ?n ?d)) with (len d).
    replace (Z.of_nat (len read - Z.to_nat (default 10 (p_drop_first p)))) with 0 by lia.
    destruct (Z.leb_spec (default 44 (p_stim_frame p)) 0); [done|].
    destruct (Z.ltb_spec 0 (default 44 (p_stim_frame p))); [done|lia].
Qed.

End entry_points.

(** ** Method names and case *)

(** [FilterApplier] lower-cases the method name it is given, and takes
    [None] and the empty string for [savgol]; [BaselineComputer] compares the
    mode as it is written: every mode that is not literally one of its six
    names raises ValueError, a differently cased spelling included. *)
Lemma method_names_and_case `{Stats} (m : string) (sigma : float) (boundary : string)
    (window poly : Z) (self : BaselineComputer.t) (df : DataFrame) :
  FilterApplier.init (Some m) sigma boundary window poly
  = FilterApplier.init (Some (lower m)) sigma boundary window poly
  ∧ FilterApplier.method (FilterApplier.init (Some m) sigma boundary window poly)
    = (if decide (m = "") then "savgol" else lower m)
  ∧ FilterApplier.init None sigma boundary window poly
    = FilterApplier.init (Some "") sigma boundary window poly
  ∧ (BaselineComputer.mode self
       ∉ ["pre_stim_median"; "global_median"; "global_percentile";
          "rolling_median"; "rolling_percentile"; "rolling_mean"] →
     BaselineComputer.compute self df
     = Raise (ValueError ("Unknown baseline mode: " ++ BaselineComputer.mode self))).
Proof.
  split; [|split; [|split]].
  - destruct m as [|a m]; [done|]. unfold FilterApplier.init.
    change (lower (String a m)) with (String (ascii_lower a) (lower m)).
    cbv iota. change (String (ascii_lower a) (lower m)) with (lower (String a m)).
    by rewrite lower_idemp.
  - by destruct m.
  - done.
  - intros Hm. unfold BaselineComputer.compute.
    repeat case_decide; try done; destruct Hm;
      match goal with E : BaselineComputer.mode self = _ |- _ => rewrite E end;
      apply list_elem_of_In; simpl; tauto.
Qed.

(** ** Examples *)


Lemma ex100_freshly_read : freshly_read ex100.
Proof. split; [split; [done|]|done]. by repeat constructor. Qed.


Lemma ex_read_rectangular : rectangular ex_read.
Proof. split; [done|]. by repeat constructor. Qed.


Lemma filter_fill_next_or_previous_valid_witness :
  cell (FilterApplier.fill_missing ex_signal) 1 1 = Some (F64.of_Z 7).
Proof.
  exact (proj1 (filter_fill_next_or_previous_valid ex_signal 1 1
                  [F64.of_Z 3; F64.nan; F64.of_Z 7] F64.nan eq_refl eq_refl)).
Defined.

Lemma rolling_baseline_all_or_nothing_witness :
  ∃ F0 f0,
    BaselineComputer.compute (H:=ref_stats) (ex_baseline "rolling_median") ex_signal
    = Ok (F0, f0)
    ∧ f0 = df_median F0.
Proof.
  assert (∃ F0 f0, BaselineComputer.compute (H:=ref_stats) (ex_baseline "rolling_median")
                     ex_signal = Ok (F0, f0)) as (F0 & f0 & E)
    by (vm_compute; eauto).
  exists F0, f0. split; [exact E|].
  exact (proj1 (rolling_baseline_all_or_nothing (H:=ref_stats)
                  (ex_baseline "rolling_median") ex_signal F0 f0 (or_introl eq_refl) E)).
Defined.

Lemma rolling_baseline_sparse_channel_witness :
  ∃ F0 f0,
    BaselineComputer.compute (H:=ref_stats) (ex_baseline "rolling_mean") ex_signal
    = Ok (F0, f0)
    ∧ df_data F0 !! 1%nat = Some [F64.nan; F64.nan; F64.nan]
    ∧ s_values f0 !! 1%nat = Some F64.nan.
Proof.
  assert (∃ F0 f0, BaselineComputer.compute (H:=ref_stats) (ex_baseline "rolling_mean")
                     ex_signal = Ok (F0, f0)) as (F0 & f0 & E)
    by (vm_compute; eauto).
  exists F0, f0. split; [exact E|].
  apply (rolling_baseline_sparse_channel (H:=ref_stats) (ex_baseline "rolling_mean")
           ex_signal F0 f0 1 [F64.of_Z 3; F64.nan; F64.of_Z 7]
           (or_intror (or_intror eq_refl)) E eq_refl).
  vm_compute. lia.
Defined.

Lemma global_median_broadcast_witness :
  ∃ F0 f0,
    BaselineComputer.compute (H:=ref_stats) (ex_baseline "global_median") ex_signal
    = Ok (F0, f0)
    ∧ s_values f0 !! 1%nat = Some (F64.of_Z 5)
    ∧ cell F0 1 1 = Some (F64.of_Z 5).
Proof.
  destruct (global_median_broadcast (H:=ref_stats) (ex_baseline "global_median") ex_signal
              ex_signal_wf eq_refl) as (F0 & f0 & E & _ & _ & Hc).
  exists F0, f0. split; [exact E|].
  destruct (Hc 1%nat [F64.of_Z 3; F64.nan; F64.of_Z 7] eq_refl) as [Hv Hcell].
  split; [exact Hv|]. apply Hcell. vm_compute. lia.
Defined.

Lemma global_percentile_validation_witness :
  (∃ e, BaselineComputer.compute (H:=ref_stats) (ex_percentile (F64.of_Z 101)) ex_signal
        = Raise e)
  ∧ (∃ e, BaselineComputer.compute (H:=ref_stats) (ex_percentile F64.nan) ex_signal
          = Raise e).
Proof.
  destruct (global_percentile_validation (H:=ref_stats) (ex_percentile (F64.of_Z 101))
              ex_signal ex_signal_wf eq_refl) as ([_ Hr] & _).
  destruct (global_percentile_validation (H:=ref_stats) (ex_percentile F64.nan)
              ex_signal ex_signal_wf eq_refl) as (_ & _ & Hn & _).
  split; [|by apply Hn].
  apply Hr. intros [_ Hle]. by vm_compute in Hle.
Defined.

Lemma filter_apply_degenerate_tables_witness :
  FilterApplier.apply (H:=numpy_only) (FilterApplier.mk "median" F64.lit_2 "reflect" 30 3)
    (mkDataFrame [] ["ROI_1"] [[]])
  = Ok (mkDataFrame [] ["ROI_1"] [[]])
  ∧ ∃ msg, FilterApplier.apply (H:=numpy_only) (ex_savgol 30 3) ex_signal
           = Raise (ImportError msg).
Proof.
  destruct (filter_apply_degenerate_tables (H:=numpy_only)
              (FilterApplier.mk "median" F64.lit_2 "reflect" 30 3)
              (mkDataFrame [] ["ROI_1"] [[]])) as (He & _).
  split; [by apply He|].
  by apply (filter_apply_degenerate_tables (H:=numpy_only) (ex_savgol 30 3) ex_signal).
Defined.

Lemma savgol_refuses_short_tables_witness :
  savgol_effective_window 3 30 = 3
  ∧ ∃ msg, FilterApplier.apply (H:=scipy_stub) (ex_savgol 30 3) ex_signal
           = Raise (ValueError msg).
Proof.
  destruct (savgol_refuses_short_tables (H:=scipy_stub) (ex_savgol 30 3) ex_signal
              eq_refl eq_refl eq_refl) as (Hw & Hr & _).
  assert (3 <= Z.of_nat (len ex_signal) <= 4) as Hn by (vm_compute; split; discriminate).
  assert (2 <= FilterApplier.savgol_poly (ex_savgol 30 3)) as Hp by (vm_compute; discriminate).
  split; [exact (Hw Hn)|exact (Hr Hn Hp)].
Defined.

Lemma missing_sample_is_filled_witness :
  ∃ sub dff,
    subtract ex_signal (BaseSeries ex_f0) = Ok sub
    ∧ at_ sub 1 "ROI_2" = Some F64.nan
    ∧ deltaF_over_F ex_signal (BaseSeries ex_f0) eps_default false false fillna_default
      = Ok dff
    ∧ at_ dff 1 "ROI_2" = Some F64.zero.
Proof.
  destruct (missing_sample_is_filled ex_signal (BaseSeries ex_f0) eps_default false false
              fillna_default 1 "ROI_2" (F64.of_Z 2) eq_refl eq_refl) as (Hs & _ & Hd).
  eexists _, _. split; [reflexivity|]. split; [by apply Hs|].
  split; [reflexivity|]. by apply Hd.
Defined.

Lemma deltaF_over_F_no_infinity_witness :
  ∃ out,
    deltaF_over_F ex_huge (BaseScalar F64.nan) eps_default false false None = Ok out
    ∧ cell out 0 0 = Some F64.nan
    ∧ F64.isinf F64.nan = false.
Proof.
  eexists. split; [reflexivity|]. split; [by vm_compute|].
  eapply (deltaF_over_F_no_infinity ex_huge _ (BaseScalar F64.nan) eps_default false false
            None eq_refl 0%nat 0%nat F64.nan); [by vm_compute|done].
Defined.

Lemma detrend_dispatch_witness :
  Detrender.apply (H:=ref_linalg) (Detrender.mk "None" 201) ex_signal = Ok ex_signal
  ∧ ∃ msg, Detrender.apply (H:=ref_linalg) (Detrender.mk "median" 201) ex_signal
           = Raise (ValueError msg).
Proof.
  destruct (detrend_dispatch (H:=ref_linalg) (Detrender.mk "None" 201) ex_signal)
    as (_ & Hn & _).
  split; [by apply Hn|].
  destruct (detrend_dispatch (H:=ref_linalg) (Detrender.mk "median" 201) ex_signal)
    as (_ & _ & Hu & _).
  eexists. by apply Hu.
Defined.


Lemma detrend_linear_cells_witness :
  ∃ out,
    Detrender.apply (H:=ref_linalg) (Detrender.mk "linear" 201) ex_line = Ok out
    ∧ cell out 3 0 = Some F64.zero.
Proof.
  destruct (detrend_linear_cells (H:=ref_linalg) (Detrender.mk "linear" 201) ex_line eq_refl)
    as (_ & Hc).
  eexists. split; [reflexivity|].
  destruct (Hc eq_refl _ eq_refl 0%nat _ eq_refl) as (m & b & Hl & Hcell).
  rewrite (Hcell 3%nat _ eq_refl).
  vm_compute in Hl. injection Hl as <- <-. by vm_compute.
Defined.

Lemma load_table_witness :
  ∃ out,
    SignalLoader.load 1 ex_read = Ok out
    ∧ wf_df out
    ∧ df_columns out = ["ROI_1"; "ROI_2"]
    ∧ df_index out = [0; 1]
    ∧ cell out 0 0 = Some (F64.of_Z 3)
    ∧ ∃ e, SignalLoader.load 3 ex_read = Raise e.
Proof.
  destruct (load_table 1 ex_read ex_read_rectangular) as (_ & _ & Ho).
  destruct (load_table 3 ex_read ex_read_rectangular) as (Hr & _ & _).
  eexists. split; [reflexivity|].
  destruct (Ho _ eq_refl) as (Hwf & Hi & Hc & Hcell & _).
  split; [exact Hwf|]. split; [exact Hc|]. split; [exact Hi|].
  split; [exact (Hcell 0%nat 0%nat)|].
  apply Hr. by vm_compute.
Defined.

Lemma run_pipeline_labels_witness :
  ∃ t,
    Pipeline.run_pipeline (ST:=ref_stats) (LA:=ref_linalg) (SM:=scipy_stub)
      Pipeline.DEFAULT_CONFIG ex100 = Ok t
    ∧ len (Pipeline.df_raw t) = 90%nat
    ∧ same_labels (Pipeline.filter_df t) (Pipeline.df_raw t).
Proof.
  assert (∃ t, Pipeline.run_pipeline (ST:=ref_stats) (LA:=ref_linalg) (SM:=scipy_stub)
                 Pipeline.DEFAULT_CONFIG ex100 = Ok t
               ∧ len (Pipeline.df_raw t) = 90%nat) as (t & E & Hlen)
    by (vm_compute; eauto).
  exists t. split; [exact E|]. split; [exact Hlen|].
  apply (run_pipeline_labels (ST:=ref_stats) (LA:=ref_linalg) (SM:=scipy_stub)
           Pipeline.DEFAULT_CONFIG ex100 t (proj1 ex100_freshly_read) E).
Defined.

Lemma run_pipeline_dff_has_no_missing_witness :
  ∃ t,
    Pipeline.run_pipeline (ST:=ref_stats) (LA:=ref_linalg) (SM:=numpy_only)
      (Pipeline.merge ex_request) ex_read = Ok t
    ∧ cell (Pipeline.df_raw t) 1 1 = Some F64.nan
    ∧ cell (Pipeline.dff_df t) 1 1 = Some F64.zero.
Proof.
  assert (∃ t, Pipeline.run_pipeline (ST:=ref_stats) (LA:=ref_linalg) (SM:=numpy_only)
                 (Pipeline.merge ex_request) ex_read = Ok t
               ∧ cell (Pipeline.df_raw t) 1 1 = Some F64.nan) as (t & E & Hraw)
    by (vm_compute; eauto).
  exists t. split; [exact E|]. split; [exact Hraw|].
  by apply (run_pipeline_dff_has_no_missing (ST:=ref_stats) (LA:=ref_linalg) (SM:=numpy_only)
              (Pipeline.merge ex_request) ex_read t ex_read_rectangular eq_refl E).
Defined.



Lemma drop_beyond_the_file_witness :
  Pipeline.run_pipeline (ST:=ref_stats) (LA:=ref_linalg) (SM:=scipy_stub)
    (Pipeline.merge (ex_params (Some 200) None)) ex100
  = Raise (ValueError "Requested to drop more frames than available")
  ∧ Pipeline.process_roi (ST:=ref_stats) (LA:=ref_linalg) (SM:=scipy_stub)
      (ex_params (Some 200) None) ex100
    = Raise (ValueError "STIM_FRAME=44 out of range [1..0] after trimming").
Proof.
  destruct (drop_beyond_the_file (ST:=ref_stats) (LA:=ref_linalg) (SM:=scipy_stub)
              (ex_params (Some 200) None) ex100 (proj1 ex100_freshly_read))
    as [Hr Hp]; [done|by vm_compute|].
  split; [exact Hr|]. by apply Hp.
Defined.
